(** * A chat room server: frame codec, room mediator and session write queue

    Shallow embedding of [message.hpp] (class [Message]) and of
    [chatRoom.cpp] / [chatRoom.hpp] (classes [Room] and [Session]).

    - A [char] is an [ascii] (eight bits); a buffer is a [list ascii].
    - [size_t] values are in [N], [int] values in [Z]; the one narrowing
      cast of the source ([static_cast<int>]) has its wrap-around written out.
    - A thrown [std::length_error] is the [Throw] branch of [result].
    - A [ParticipantPtr] is the address it holds; [std::set<ParticipantPtr>]
      is a [gset N] iterated in ascending address order.
    - A virtual call [participant->deliver(msg)] made by the [Room] is
      recorded as an entry of a call log, in program order. *)

From Stdlib Require Import ZArith NArith Ascii String DecimalString.
From stdpp Require Import base tactics option list sorting gmap.

Local Open Scope N_scope.

(** ** Exceptions *)

Inductive exn : Type :=
| length_error.

Inductive result (A : Type) : Type :=
| Ok (a : A)
| Throw (e : exn).
Arguments Ok {A} a.
Arguments Throw {A} e.

Definition bind {A B : Type} (r : result A) (k : A → result B) : result B :=
  match r with
  | Ok a => k a
  | Throw e => Throw e
  end.

(** ** The C library functions the codec calls *)

Module Libc.

Definition NUL : ascii := ascii_of_N 0.

(** The bytes of a buffer up to (excluding) the first NUL. *)
Fixpoint c_str_of (buf : list ascii) : list ascii :=
  match buf with
  | [] => []
  | c :: t => if (N_of_ascii c =? 0) then [] else c :: c_str_of t
  end.

Definition isspace (c : ascii) : bool :=
  let n := N_of_ascii c in (n =? 32) || ((9 <=? n) && (n <=? 13)).

Definition isdigit (c : ascii) : bool :=
  let n := N_of_ascii c in (48 <=? n) && (n <=? 57).

Fixpoint skip_spaces (s : list ascii) : list ascii :=
  match s with
  | [] => []
  | c :: t => if isspace c then skip_spaces t else s
  end.

Fixpoint parse_digits (acc : Z) (s : list ascii) : Z :=
  match s with
  | [] => acc
  | c :: t =>
      if isdigit c
      then parse_digits (acc * 10 + (Z.of_N (N_of_ascii c) - 48))%Z t
      else acc
  end.

(** [atoi]: leading white space, an optional sign, then decimal digits up
    to the first other character; 0 when there is no digit. The strings
    parsed here have at most four characters, so the value fits an [int]. *)
Definition atoi (buf : list ascii) : Z :=
  let s := skip_spaces (c_str_of buf) in
  match s with
  | [] => 0%Z
  | c :: t =>
      if (N_of_ascii c =? 45) then (- parse_digits 0 t)%Z
      else if (N_of_ascii c =? 43) then parse_digits 0 t
      else parse_digits 0 s
  end.

Definition digit_char (d : N) : ascii := ascii_of_N (48 + d).

(** Decimal digits of [n], most significant first; [fuel] bounds the
    number of digits. *)
Fixpoint utoa_fuel (fuel : nat) (n : N) (acc : list ascii) : list ascii :=
  match fuel with
  | O => acc
  | S f =>
      let acc' := digit_char (n mod 10) :: acc in
      if (n / 10 =? 0) then acc' else utoa_fuel f (n / 10) acc'
  end.

Definition utoa (n : N) : list ascii := utoa_fuel (S (N.size_nat n)) n [].

Definition itoa (v : Z) : list ascii :=
  if (v <? 0)%Z then ascii_of_N 45 :: utoa (Z.to_N (- v)) else utoa (Z.to_N v).

(** [sprintf(buf, "%4d", v)]: the characters written before the
    terminating NUL, right-justified in a field of at least 4. *)
Definition sprintf_4d (v : Z) : list ascii :=
  let s := itoa v in
  replicate (4 - length s)%nat (ascii_of_N 32) ++ s.

(** [memcpy(dst + off, src, n)] on a buffer [dst]; the source calls it
    with [n] bytes available in [src] and [off + n] within [dst]. *)
Definition memcpy (dst : list ascii) (off : nat) (src : list ascii) (n : nat)
  : list ascii :=
  take off dst ++ take n src ++ drop (off + n) dst.

End Libc.

(** ** class Message *)

Module Message.
Import Libc.

Definition maxBytes : N := 512.
Definition header : N := 4.

Record Message : Type := mkMessage {
  data : list ascii;        (* char data[header + maxBytes] *)
  bodyLength_ : N           (* size_t bodyLength_ *)
}.

(** [static_cast<int>] of a [size_t]: reduction modulo 2^32 into the
    signed range. *)
Definition to_int (n : N) : Z :=
  ((Z.of_N n + 2 ^ 31) mod 2 ^ 32 - 2 ^ 31)%Z.

(** [Message()] on storage whose array holds [uninit]. *)
Definition Message_default (uninit : list ascii) : Message :=
  {| data := uninit; bodyLength_ := 0 |}.

Definition setBodyLength (newLength : N) (m : Message) : result Message :=
  if (maxBytes <? newLength) then Throw length_error
  else Ok {| data := data m; bodyLength_ := newLength |}.

Definition getBodyLength (m : Message) : N := bodyLength_ m.

Definition encodeHeader (m : Message) : Message :=
  let temp_header := sprintf_4d (to_int (bodyLength_ m)) ++ [NUL] in
  {| data := memcpy (data m) 0 temp_header (N.to_nat header);
     bodyLength_ := bodyLength_ m |}.

(** [message.c_str()] is the string followed by a NUL. *)
Definition encodeBody (message : list ascii) (m : Message) : Message :=
  {| data := memcpy (data m) (N.to_nat header) (message ++ [NUL])
               (N.to_nat (bodyLength_ m));
     bodyLength_ := bodyLength_ m |}.

Definition decodeHeader (m : Message) : bool * Message :=
  let temp_header := take (N.to_nat header) (data m) ++ [NUL] in
  let header_value := atoi temp_header in
  if ((header_value <? 0) || (Z.of_N maxBytes <? header_value))%Z
  then (false, {| data := data m; bodyLength_ := 0 |})
  else (true, {| data := data m; bodyLength_ := Z.to_N header_value |}).

Definition getData (m : Message) : list ascii :=
  take (N.to_nat (header + bodyLength_ m)) (data m).

Definition getBody (m : Message) : list ascii :=
  take (N.to_nat (bodyLength_ m)) (drop (N.to_nat header) (data m)).

(** [Message(const std::string&)] on storage [raw]. *)
Definition Message_of_string (raw : Message) (message : list ascii)
  : result Message :=
  bind (setBodyLength (N.of_nat (length message)) raw)
       (λ m1, Ok (encodeBody message (encodeHeader m1))).

Definition setBody (body : list ascii) (m : Message) : result Message :=
  bind (setBodyLength (N.of_nat (length body)) m)
       (λ m1, Ok (encodeBody body (encodeHeader m1))).

End Message.

(** ** class Room *)

Module Room.
Import Message.

Abbreviation ParticipantPtr := N (only parsing).

(** One virtual call [participant->deliver(msg)]. *)
Definition Call : Type := N * Message.

Record Room : Type := mkRoom {
  participants : gset N;          (* std::set<ParticipantPtr> *)
  MessageQueue : list Message     (* std::deque<Message> *)
}.

(** A default-constructed [Room]. *)
Definition Room_default : Room :=
  {| participants := ∅; MessageQueue := [] |}.

(** The order in which a range-for visits a [std::set]: ascending. *)
Definition in_order (s : gset N) : list N := merge_sort N.le (elements s).

Definition join (participant : N) (r : Room) : Room * list Call :=
  let r1 := {| participants := {[participant]} ∪ participants r;
               MessageQueue := MessageQueue r |} in
  (r1, (λ msg, (participant, msg)) <$> MessageQueue r1).

Definition leave (participant : N) (r : Room) : Room :=
  {| participants := participants r ∖ {[participant]};
     MessageQueue := MessageQueue r |}.

Definition deliver (sender : N) (msg : Message) (r : Room) : Room * list Call :=
  let q := MessageQueue r ++ [msg] in
  let q := if (50 <? length q)%nat then tail q else q in
  let r1 := {| participants := participants r; MessageQueue := q |} in
  (r1,
   (λ participant, (participant, msg))
     <$> filter (λ participant, participant ≠ sender)
                (in_order (participants r1))).

(** Requests a [Room] serves, and their execution in call order. *)
Inductive request : Type :=
| Join (participant : N)
| Leave (participant : N)
| Broadcast (sender : N) (msg : Message).

Definition serve (q : request) (r : Room) : Room * list Call :=
  match q with
  | Join p => join p r
  | Leave p => (leave p r, [])
  | Broadcast sender msg => deliver sender msg r
  end.

Fixpoint exec (qs : list request) (r : Room) : Room * list Call :=
  match qs with
  | [] => (r, [])
  | q :: qs' =>
      let '(r1, c1) := serve q r in
      let '(r2, c2) := exec qs' r1 in
      (r2, c1 ++ c2)
  end.

(** The messages one participant is handed by a call log, in order. *)
Definition received_by (p : N) (calls : list Call) : list Message :=
  (filter (λ c : Call, c.1 = p) calls).*2.

(** The messages broadcast by a request sequence, in order. *)
Fixpoint broadcasts (qs : list request) : list Message :=
  match qs with
  | [] => []
  | Broadcast _ msg :: qs' => msg :: broadcasts qs'
  | _ :: qs' => broadcasts qs'
  end.

Definition broadcast_all (bs : list (N * Message)) : list request :=
  (λ b, Broadcast b.1 b.2) <$> bs.

End Room.

(** ** class Session: the outbound side and the read cycle *)

Module Session.
Import Libc Message.

Record Session : Type := mkSession {
  outgoingMessages : list Message;  (* std::deque<Message> *)
  in_flight : list (list ascii);    (* buffers of the async_write operations
                                       started on clientSocket, not completed *)
  transmitted : list ascii;         (* bytes clientSocket has sent *)
  left_room : bool                  (* room.leave(shared_from_this()) was called *)
}.

(** A freshly constructed [Session]. *)
Definition Session_new : Session :=
  {| outgoingMessages := []; in_flight := []; transmitted := [];
     left_room := false |}.

(** [boost::asio::buffer(msg.data, Message::header + msg.getBodyLength())]. *)
Definition write_buffer (msg : Message) : list ascii :=
  take (N.to_nat (header + getBodyLength msg)) (data msg).

Definition async_write (s : Session) : Session :=
  match outgoingMessages s with
  | [] => s
  | msg :: _ =>
      {| outgoingMessages := outgoingMessages s;
         in_flight := in_flight s ++ [write_buffer msg];
         transmitted := transmitted s;
         left_room := left_room s |}
  end.

Definition deliver (msg : Message) (s : Session) : Session :=
  let s1 := {| outgoingMessages := outgoingMessages s ++ [msg];
               in_flight := in_flight s;
               transmitted := transmitted s;
               left_room := left_room s |} in
  if (length (outgoingMessages s1) =? 1)%nat then async_write s1 else s1.

(** The completion handler of [async_write], [ec] clear. *)
Definition on_write_ok (s : Session) : Session :=
  let s1 := {| outgoingMessages := tail (outgoingMessages s);
               in_flight := in_flight s;
               transmitted := transmitted s;
               left_room := left_room s |} in
  match outgoingMessages s1 with
  | [] => s1
  | _ :: _ => async_write s1
  end.

(** The completion handler of [async_write], [ec] set. *)
Definition on_write_error (s : Session) : Session :=
  {| outgoingMessages := outgoingMessages s;
     in_flight := in_flight s;
     transmitted := transmitted s;
     left_room := true |}.

(** What can happen to a session's outbound side: the room hands it a
    message; the oldest outstanding write completes, all its bytes sent;
    or it fails after [sent] of its bytes. *)
Inductive event : Type :=
| Deliver (msg : Message)
| WriteDone
| WriteFailed (sent : nat).

Definition step (e : event) (s : Session) : option Session :=
  match e with
  | Deliver msg => Some (deliver msg s)
  | WriteDone =>
      match in_flight s with
      | [] => None
      | buf :: ops =>
          Some (on_write_ok
                  {| outgoingMessages := outgoingMessages s;
                     in_flight := ops;
                     transmitted := transmitted s ++ buf;
                     left_room := left_room s |})
      end
  | WriteFailed sent =>
      match in_flight s with
      | [] => None
      | buf :: ops =>
          if (sent <? length buf)%nat then
            Some (on_write_error
                    {| outgoingMessages := outgoingMessages s;
                       in_flight := ops;
                       transmitted := transmitted s ++ take sent buf;
                       left_room := left_room s |})
          else None
      end
  end.

Fixpoint run (es : list event) (s : Session) : option Session :=
  match es with
  | [] => Some s
  | e :: es' =>
      match step e s with
      | Some s1 => run es' s1
      | None => None
      end
  end.

(** The messages handed to the session by an event sequence, in order. *)
Fixpoint delivered (es : list event) : list Message :=
  match es with
  | [] => []
  | Deliver msg :: es' => msg :: delivered es'
  | _ :: es' => delivered es'
  end.

(** One turn of the read cycle ([async_read] then [readMessageBody]) on
    the bytes [stream] the socket will produce: four bytes into
    [incomingMessage.data], [decodeHeader], then [getBodyLength()] bytes
    into [data + header]. [None] when the read fails or the header is
    rejected; otherwise the message handed to [write] and the rest of the
    stream. *)
Definition read_message (stream : list ascii) (incomingMessage : Message)
  : option (Message * list ascii) :=
  if (length stream <? N.to_nat header)%nat then None
  else
    let m1 := {| data := memcpy (data incomingMessage) 0 stream (N.to_nat header);
                 bodyLength_ := bodyLength_ incomingMessage |} in
    let '(ok, m2) := decodeHeader m1 in
    if ok then
      let rest := drop (N.to_nat header) stream in
      let n := N.to_nat (getBodyLength m2) in
      if (length rest <? n)%nat then None
      else Some ({| data := memcpy (data m2) (N.to_nat header) rest n;
                    bodyLength_ := bodyLength_ m2 |},
                 drop n rest)
    else None.

End Session.

(** ** Room and sessions together *)

Module Server.

(** The [Session] objects alive, by address. A logged call
    [participant->deliver(msg)] on one of them runs [Session::deliver]. *)
Definition dispatch (calls : list Room.Call)
    (sessions : gmap N Session.Session) : gmap N Session.Session :=
  foldl (λ ss c, alter (Session.deliver c.2) c.1 ss) sessions calls.

End Server.

(** ** The wire format in the words of the protocol description *)

Definition str (s : string) : list ascii := list_ascii_of_string s.

(** The decimal numeral of [n] as the standard library prints it. *)
Definition decimal (n : N) : list ascii :=
  str (NilZero.string_of_uint (N.to_uint n)).

(** A text right-justified in a field of [width] characters, padded with
    spaces on the left. *)
Definition right_justified (width : nat) (text field : list ascii) : Prop :=
  length field = width ∧
  ∃ k : nat, field = replicate k (ascii_of_N 32) ++ text.

Import Libc Message.

(** The header the encoder writes for a body of [n] bytes, checked against
    the protocol description and against the decoder. *)
Definition header_check (n : nat) : bool :=
  let h := sprintf_4d (to_int (N.of_nat n)) in
  let d := decimal (N.of_nat n) in
  bool_decide (h = replicate (4 - length d)%nat (ascii_of_N 32) ++ d)
  && bool_decide (length h = 4%nat)
  && bool_decide (atoi (h ++ [NUL]) = Z.of_nat n).

(** A full-size buffer that starts with [text], zero-filled. *)
Definition buffer_of (text : list ascii) : list ascii :=
  text ++ replicate (516 - length text)%nat NUL.

(** Sample one-byte messages, told apart by their body. *)
Definition numbered (i : nat) : Message :=
  {| data := buffer_of (str "   1" ++ [ascii_of_nat (48 + i)]);
     bodyLength_ := 1 |}.

(** The last 50 entries of a list. *)
Definition window (l : list Message) : list Message :=
  drop (length l - 50) l.

(** ** The rest of the program *)

(** What every member function of [Message] keeps: the array has its
    declared size and the stored length is within the protocol bound. *)
Definition Message_wf (m : Message) : Prop :=
  length (data m) = 516%nat ∧ bodyLength_ m ≤ maxBytes.

(** The body length written with leading zeros, as the protocol comment of
    [message.hpp] writes its examples ("0005Hello"). *)
Definition zero_padded (n : N) : list ascii :=
  replicate (4 - length (decimal n))%nat (ascii_of_N 48) ++ decimal n.

Definition zero_padded_check (n : nat) : bool :=
  bool_decide (length (zero_padded (N.of_nat n)) = 4%nat)
  && bool_decide (atoi (zero_padded (N.of_nat n) ++ [NUL]) = Z.of_nat n).

(** *** The read cycle of a server session, run on the bytes to come *)

Module ReadCycle.

(** [async_read], its handler, [readMessageBody], its handler, and so on:
    each complete message is handed to [write]; the cycle ends (with
    [room.leave]) at the first failed read or rejected header. The result is
    the messages handed to [write], in order. Every turn consumes at least
    the four header bytes, so [fuel] above the stream length is enough. *)
Fixpoint read_loop (fuel : nat) (stream : list ascii) (incomingMessage : Message)
  : list Message :=
  match fuel with
  | O => []
  | S fuel' =>
      match Session.read_message stream incomingMessage with
      | Some (msg, rest) => msg :: read_loop fuel' rest msg
      | None => []
      end
  end.

Definition read_all (stream : list ascii) (incomingMessage : Message)
  : list Message :=
  read_loop (S (length stream)) stream incomingMessage.

End ReadCycle.

(** *** class ChatClient *)

Module ChatClient.

(** The frame [sendMessage] hands to [boost::asio::write], which is what
    the socket gets when that write succeeds; nothing when the constructor
    throws (the exception is caught and reported before any write). The
    local [Message] is built on storage [raw]. *)
Definition sendMessage (raw : Message) (messageText : list ascii) : list ascii :=
  match Message_of_string raw messageText with
  | Ok msg => take (N.to_nat (header + getBodyLength msg)) (data msg)
  | Throw _ => []
  end.

(** What one call of [boost::asio::write] does with its buffer: it writes
    all of it, or it throws after writing [sent] bytes, fewer than all. *)
Inductive write_result : Type :=
| WriteAll
| WriteThrows (sent : nat).

(** [sendMessage] on a socket whose calls of [write] behave as [socket]
    says, call by call; [writes] counts the calls made before. The result is
    the bytes that reach the wire and the count afterwards. Both exceptions,
    the constructor's and the write's, are caught and reported, and the
    caller goes on. *)
Definition sendMessage_on (socket : nat → write_result) (writes : nat)
    (raw : Message) (messageText : list ascii) : list ascii * nat :=
  match Message_of_string raw messageText with
  | Ok msg =>
      let buf := take (N.to_nat (header + getBodyLength msg)) (data msg) in
      (match socket writes with
       | WriteAll => buf
       | WriteThrows sent => take (Nat.min sent (length buf - 1)) buf
       end, S writes)
  | Throw _ => ([], writes)
  end.

(** The input loop of [run]: lines from [std::getline] until "quit" or
    "exit"; empty lines are skipped; every other line goes to
    [sendMessage]. The result is the bytes that reach the wire. *)
Fixpoint run_input (socket : nat → write_result) (writes : nat) (raw : Message)
    (lines : list (list ascii)) : list ascii :=
  match lines with
  | [] => []
  | input :: more =>
      if bool_decide (input = str "quit" ∨ input = str "exit") then []
      else if bool_decide (input = []) then run_input socket writes raw more
      else
        let '(bytes, writes') := sendMessage_on socket writes raw input in
        bytes ++ run_input socket writes' raw more
  end.

(** [startReceiving] / [readBodyData] on the bytes to come: the bodies
    printed, in order. A rejected header is reported and the cycle goes on
    with the next four bytes; a failed read ends it. *)
Fixpoint receive_loop (fuel : nat) (stream : list ascii) (readMessage : Message)
  : list (list ascii) :=
  match fuel with
  | O => []
  | S fuel' =>
      if (length stream <? N.to_nat header)%nat then []
      else
        let m1 := {| data := memcpy (data readMessage) 0 stream (N.to_nat header);
                     bodyLength_ := bodyLength_ readMessage |} in
        let '(ok, m2) := decodeHeader m1 in
        let rest := drop (N.to_nat header) stream in
        if ok then
          let n := N.to_nat (getBodyLength m2) in
          if (length rest <? n)%nat then []
          else
            let m3 := {| data := memcpy (data m2) (N.to_nat header) rest n;
                         bodyLength_ := bodyLength_ m2 |} in
            getBody m3 :: receive_loop fuel' (drop n rest) m3
        else receive_loop fuel' rest m2
  end.

Definition receive_all (stream : list ascii) (readMessage : Message)
  : list (list ascii) :=
  receive_loop (S (length stream)) stream readMessage.

End ChatClient.

(** *** The server: the room, its sessions, and the completion handlers *)

Module ChatServer.

Inductive read_state : Type :=
| ReadingHeader      (* the read started by [async_read] is pending *)
| ReadingBody        (* the read started by [readMessageBody] is pending *)
| ReadStopped.       (* no read is pending *)

Record Conn : Type := mkConn {
  out : Session.Session;        (* outgoingMessages and the socket's writes *)
  incomingMessage : Message;
  reading : read_state
}.

Record Server : Type := mkServer {
  room : Room.Room;
  sessions : gmap N Conn        (* the Session objects alive, by address *)
}.

(** [main] before [io.run()]. *)
Definition Server_start : Server :=
  {| room := Room.Room_default; sessions := ∅ |}.

(** A session object is kept alive by a pending read, a pending write, or
    membership of the room. *)
Definition read_pending (c : Conn) : bool :=
  match reading c with
  | ReadStopped => false
  | _ => true
  end.

Definition write_pending (c : Conn) : bool :=
  match Session.in_flight (out c) with
  | [] => false
  | _ :: _ => true
  end.

Definition referenced (r : Room.Room) (p : N) (c : Conn) : bool :=
  read_pending c || write_pending c || bool_decide (p ∈ Room.participants r).

Definition deliver_to (msg : Message) (c : Conn) : Conn :=
  {| out := Session.deliver msg (out c);
     incomingMessage := incomingMessage c;
     reading := reading c |}.

(** The calls [participant->deliver(msg)] of a call log, run on the
    sessions. *)
Definition dispatch (calls : list Room.Call) (ss : gmap N Conn) : gmap N Conn :=
  foldl (λ ss c, alter (deliver_to c.2) c.1 ss) ss calls.

(** [Session::start] on the session at [p]. *)
Definition start (p : N) (st : Server) : Server :=
  let '(r1, calls) := Room.join p (room st) in
  {| room := r1;
     sessions := alter (λ c, {| out := out c;
                                incomingMessage := incomingMessage c;
                                reading := ReadingHeader |}) p
                   (dispatch calls (sessions st)) |}.

(** [Session::write] on the session at [p]. *)
Definition write (p : N) (msg : Message) (st : Server) : Server :=
  let '(r1, calls) := Room.deliver p msg (room st) in
  {| room := r1; sessions := dispatch calls (sessions st) |}.

Definition leave (p : N) (st : Server) : Server :=
  {| room := Room.leave p (room st); sessions := sessions st |}.

Definition set_conn (p : N) (c : Conn) (st : Server) : Server :=
  {| room := room st; sessions := <[p := c]> (sessions st) |}.

(** The completions [io.run()] dispatches. *)
Inductive event : Type :=
| Accepted (p : N) (uninit : list ascii)   (* a connection; the new Session is at [p] *)
| AcceptFailed
| HeaderRead (p : N) (bytes : list ascii)
| BodyRead (p : N) (bytes : list ascii)
| ReadFailed (p : N)     (* the pending read fails; the receive object is not used again *)
| WriteDone (p : N)
| WriteFailed (p : N) (sent : nat).

Definition on_accepted (p : N) (uninit : list ascii) (st : Server) : option Server :=
  let fresh := match sessions st !! p with
               | None => true
               | Some c => negb (referenced (room st) p c)
               end in
  if fresh && bool_decide (length uninit = 516%nat) then
    Some (start p (set_conn p {| out := Session.Session_new;
                                 incomingMessage := Message_default uninit;
                                 reading := ReadStopped |} st))
  else None.

Definition on_header_read (p : N) (bytes : list ascii) (st : Server)
  : option Server :=
  match sessions st !! p with
  | Some c =>
      match reading c with
      | ReadingHeader =>
          if bool_decide (length bytes = N.to_nat header) then
            let m1 := {| data := memcpy (data (incomingMessage c)) 0 bytes
                                   (N.to_nat header);
                         bodyLength_ := bodyLength_ (incomingMessage c) |} in
            let '(ok, m2) := decodeHeader m1 in
            if ok then
              Some (set_conn p {| out := out c; incomingMessage := m2;
                                  reading := ReadingBody |} st)
            else
              Some (leave p (set_conn p {| out := out c; incomingMessage := m2;
                                           reading := ReadStopped |} st))
          else None
      | _ => None
      end
  | None => None
  end.

Definition on_body_read (p : N) (bytes : list ascii) (st : Server)
  : option Server :=
  match sessions st !! p with
  | Some c =>
      match reading c with
      | ReadingBody =>
          let n := N.to_nat (getBodyLength (incomingMessage c)) in
          if bool_decide (length bytes = n) then
            let msg := {| data := memcpy (data (incomingMessage c))
                                    (N.to_nat header) bytes n;
                          bodyLength_ := bodyLength_ (incomingMessage c) |} in
            Some (write p msg
                    (set_conn p {| out := out c; incomingMessage := msg;
                                   reading := ReadingHeader |} st))
          else None
      | _ => None
      end
  | None => None
  end.

Definition on_read_failed (p : N) (st : Server) : option Server :=
  match sessions st !! p with
  | Some c =>
      match reading c with
      | ReadStopped => None
      | _ => Some (leave p (set_conn p {| out := out c;
                                         incomingMessage := incomingMessage c;
                                         reading := ReadStopped |} st))
      end
  | None => None
  end.

Definition on_write (e : Session.event) (p : N) (st : Server) : option Server :=
  match sessions st !! p with
  | Some c =>
      match Session.step e (out c) with
      | Some o =>
          let st1 := set_conn p {| out := o; incomingMessage := incomingMessage c;
                                   reading := reading c |} st in
          Some (match e with
                | Session.WriteFailed _ => leave p st1
                | _ => st1
                end)
      | None => None
      end
  | None => None
  end.

Definition step (e : event) (st : Server) : option Server :=
  match e with
  | Accepted p uninit => on_accepted p uninit st
  | AcceptFailed => Some st
  | HeaderRead p bytes => on_header_read p bytes st
  | BodyRead p bytes => on_body_read p bytes st
  | ReadFailed p => on_read_failed p st
  | WriteDone p => on_write Session.WriteDone p st
  | WriteFailed p sent => on_write (Session.WriteFailed sent) p st
  end.

Fixpoint run (es : list event) (st : Server) : option Server :=
  match es with
  | [] => Some st
  | e :: es' =>
      match step e st with
      | Some st1 => run es' st1
      | None => None
      end
  end.

End ChatServer.

(** The bytes of a sequence of messages as [async_write] sends them. *)
Definition frames (msgs : list Message) : list ascii :=
  concat (Session.write_buffer <$> msgs).
Arguments frames : simpl never.

(** The state of a session's write chain once the messages [D] have been
    handed to it. Either no write has failed: everything handed over is sent
    or still queued, in order, and a write is outstanding exactly when the
    queue is non-empty, for the message at its front. Or a write has failed:
    nothing is outstanding, the failed message still heads the queue, and
    what was sent is a prefix of what was handed over. *)
Definition write_chain (D : list Message) (s : Session.Session) : Prop :=
  (Session.left_room s = false
   ∧ Session.transmitted s ++ frames (Session.outgoingMessages s) = frames D
   ∧ ((Session.outgoingMessages s = [] ∧ Session.in_flight s = [])
      ∨ ∃ msg q, Session.outgoingMessages s = msg :: q
                 ∧ Session.in_flight s = [Session.write_buffer msg]))
  ∨ (Session.left_room s = true
     ∧ Session.in_flight s = []
     ∧ Session.outgoingMessages s ≠ []
     ∧ Session.transmitted s `prefix_of` frames D).

(** [Session::deliver] called for each of [msgs] in turn. *)
Definition deliver_all (msgs : list Message) (s : Session.Session)
  : Session.Session :=
  foldl (λ s msg, Session.deliver msg s) s msgs.

(** A session takes part in the chat while its read cycle is alive and no
    write of its has failed. *)
Definition active (c : ChatServer.Conn) : bool :=
  ChatServer.read_pending c && negb (Session.left_room (ChatServer.out c)).

Definition conn_ok (c : ChatServer.Conn) : Prop :=
  (∃ D, write_chain D (ChatServer.out c))
  ∧ Message_wf (ChatServer.incomingMessage c).

(** What holds of the server between any two handlers: the room's members
    are exactly the active sessions; every session's write chain is in
    order and its receive object well formed; the history is bounded. *)
Definition server_inv (st : ChatServer.Server) : Prop :=
  (∀ p, p ∈ Room.participants (ChatServer.room st)
        ↔ ∃ c, ChatServer.sessions st !! p = Some c ∧ active c = true)
  ∧ (∀ p c, ChatServer.sessions st !! p = Some c → conn_ok c)
  ∧ (length (Room.MessageQueue (ChatServer.room st)) ≤ 50)%nat.

(** * Properties *)

Section CodecLemmas.

Implicit Types (b body rest : list ascii) (m raw rx : Message).

Lemma header_table : forallb header_check (seq 0 513) = true.
Proof. vm_compute. reflexivity. Qed.

Lemma header_checked (n : nat) :
  (n ≤ 512)%nat →
  let h := sprintf_4d (to_int (N.of_nat n)) in
  let d := decimal (N.of_nat n) in
  h = replicate (4 - length d)%nat (ascii_of_N 32) ++ d
  ∧ length h = 4%nat
  ∧ atoi (h ++ [NUL]) = Z.of_nat n.
Proof.
  intros Hn. cbv zeta. pose proof header_table as Ht.
  rewrite forallb_forall in Ht.
  assert (header_check n = true) as Hc by (apply Ht, in_seq; lia).
  unfold header_check in Hc.
  rewrite !andb_true_iff, !bool_decide_eq_true in Hc. tauto.
Qed.

Lemma header_length (n : nat) :
  (n ≤ 512)%nat → length (sprintf_4d (to_int (N.of_nat n))) = 4%nat.
Proof. intros Hn. by destruct (header_checked n Hn) as (_ & ? & _). Qed.

Lemma header_decimal (n : nat) :
  (n ≤ 512)%nat →
  sprintf_4d (to_int (N.of_nat n)) =
  replicate (4 - length (decimal (N.of_nat n)))%nat (ascii_of_N 32)
    ++ decimal (N.of_nat n).
Proof. intros Hn. by destruct (header_checked n Hn) as (? & _ & _). Qed.

Lemma header_atoi (n : nat) :
  (n ≤ 512)%nat → atoi (sprintf_4d (to_int (N.of_nat n)) ++ [NUL]) = Z.of_nat n.
Proof. intros Hn. by destruct (header_checked n Hn) as (_ & _ & ?). Qed.

Lemma digit_char_digit (d : N) :
  d < 10 →
  isdigit (digit_char d) = true
  ∧ (Z.of_N (N_of_ascii (digit_char d)) - 48)%Z = Z.of_N d.
Proof.
  intros Hd. unfold isdigit, digit_char.
  rewrite N_ascii_embedding by lia. split; [|lia].
  apply andb_true_intro. split; apply N.leb_le; lia.
Qed.

(** [utoa_fuel] does not run out of fuel on a number of at most [fuel]
    digits: reading its output back gives the number. *)
Lemma parse_digits_utoa_fuel (fuel : nat) : ∀ (n : N) (acc : list ascii) (a : Z),
  n < 10 ^ N.of_nat fuel →
  ∃ k : nat, parse_digits a (utoa_fuel fuel n acc)
             = parse_digits (a * 10 ^ Z.of_nat k + Z.of_N n)%Z acc.
Proof.
  induction fuel as [|fuel IH]; intros n acc a Hn.
  - exists 0%nat. simpl in *. f_equal. lia.
  - cbn [utoa_fuel].
    destruct (digit_char_digit (n mod 10)) as [Hd Hv];
      [apply N.mod_lt; lia|].
    destruct (N.eqb_spec (n / 10) 0) as [Hz|Hnz].
    + exists 1%nat. cbn [parse_digits]. rewrite Hd, Hv. f_equal.
      rewrite N.mod_small by (apply N.div_small_iff in Hz; lia). lia.
    + destruct (IH (n / 10) (digit_char (n mod 10) :: acc) a) as [k Hk].
      { apply N.div_lt_upper_bound; [lia|].
        rewrite Nat2N.inj_succ, N.pow_succ_r' in Hn. lia. }
      exists (S k). rewrite Hk. cbn [parse_digits]. rewrite Hd, Hv. f_equal.
      rewrite Nat2Z.inj_succ, Z.pow_succ_r by lia.
      rewrite N2Z.inj_mod, N2Z.inj_div. change (Z.of_N 10) with 10%Z.
      pose proof (Z.div_mod (Z.of_N n) 10 ltac:(lia)). lia.
Qed.

Lemma pos_lt_pow_size (p : positive) :
  N.pos p < 2 ^ N.of_nat (Pos.size_nat p).
Proof.
  induction p as [p IH|p IH|]; cbn [Pos.size_nat];
    rewrite ?Nat2N.inj_succ, ?N.pow_succ_r'; [lia..|done].
Qed.

Lemma parse_digits_utoa (n : N) : parse_digits 0 (utoa n) = Z.of_N n.
Proof.
  destruct (parse_digits_utoa_fuel (S (N.size_nat n)) n [] 0%Z) as [k Hk].
  - rewrite Nat2N.inj_succ, N.pow_succ_r'.
    assert (n < 2 ^ N.of_nat (N.size_nat n)) as Hlt
      by (destruct n; [done | apply pos_lt_pow_size]).
    pose proof (N.pow_le_mono_l 2 10 (N.of_nat (N.size_nat n)) ltac:(lia)).
    lia.
  - unfold utoa. rewrite Hk. simpl. lia.
Qed.

Lemma memcpy_front (dst src : list ascii) (n : nat) :
  memcpy dst 0 src n = take n src ++ drop n dst.
Proof. unfold memcpy. by rewrite take_0. Qed.

Lemma memcpy_after (pre dst src : list ascii) (off n : nat) :
  off = length pre →
  memcpy (pre ++ dst) off src n = pre ++ take n src ++ drop n dst.
Proof.
  intros ->. unfold memcpy. rewrite take_app_length. f_equal. f_equal.
  by rewrite drop_app_add.
Qed.

Lemma setBodyLength_ok m (n : N) :
  n ≤ maxBytes → setBodyLength n m = Ok {| data := data m; bodyLength_ := n |}.
Proof.
  intros Hn. unfold setBodyLength.
  destruct (N.ltb_spec maxBytes n); [lia | done].
Qed.

Lemma setBodyLength_throws m (n : N) :
  maxBytes < n → setBodyLength n m = Throw length_error.
Proof.
  intros Hn. unfold setBodyLength.
  destruct (N.ltb_spec maxBytes n); [done | lia].
Qed.

(** The object the sender builds: header, body, and whatever the array
    held beyond them. *)
Lemma Message_of_string_layout raw b :
  (length b ≤ 512)%nat →
  Message_of_string raw b =
  Ok {| data := sprintf_4d (to_int (N.of_nat (length b))) ++ b
                  ++ drop (length b) (drop 4 (data raw));
        bodyLength_ := N.of_nat (length b) |}.
Proof.
  intros Hb. unfold Message_of_string.
  rewrite setBodyLength_ok by (unfold maxBytes; lia). simpl.
  unfold encodeBody, encodeHeader. simpl. f_equal. f_equal.
  pose proof (header_length _ Hb) as Hl.
  rewrite memcpy_front.
  change (Pos.to_nat 4) with 4%nat.
  rewrite (take_app_length' _ _ 4) by done.
  rewrite memcpy_after by done.
  rewrite Nat2N.id, take_app_length. done.
Qed.

Lemma decodeHeader_of_header (n : nat) (tl : list ascii) (k : N) :
  (n ≤ 512)%nat →
  decodeHeader {| data := sprintf_4d (to_int (N.of_nat n)) ++ tl;
                  bodyLength_ := k |}
  = (true, {| data := sprintf_4d (to_int (N.of_nat n)) ++ tl;
              bodyLength_ := N.of_nat n |}).
Proof.
  intros Hn. unfold decodeHeader. simpl.
  change (Pos.to_nat 4) with 4%nat.
  rewrite (take_app_length' _ _ 4) by (by rewrite header_length).
  rewrite header_atoi by done.
  change (Z.of_N maxBytes) with 512%Z.
  destruct (Z.ltb_spec (Z.of_nat n) 0); [lia|].
  destruct (Z.ltb_spec 512 (Z.of_nat n)); [lia|].
  simpl. do 2 f_equal. lia.
Qed.

Lemma getBody_layout (h b tl : list ascii) :
  length h = 4%nat →
  getBody {| data := h ++ b ++ tl; bodyLength_ := N.of_nat (length b) |} = b.
Proof.
  intros Hh. unfold getBody. simpl. change (Pos.to_nat 4) with 4%nat.
  rewrite (drop_app_length' _ _ 4) by done.
  by rewrite Nat2N.id, take_app_length.
Qed.

Lemma getData_layout (h b tl : list ascii) :
  length h = 4%nat →
  getData {| data := h ++ b ++ tl; bodyLength_ := N.of_nat (length b) |}
  = h ++ b.
Proof.
  intros Hh. unfold getData. simpl.
  replace (N.to_nat (header + N.of_nat (length b))) with (length (h ++ b))
    by (rewrite length_app; unfold header; lia).
  by rewrite app_assoc, take_app_length.
Qed.

End CodecLemmas.

Section CodecProperties.

Implicit Types (b body rest : list ascii) (m raw rx : Message).

Lemma setBody_is_constructor body m :
  setBody body m = Message_of_string m body.
Proof. reflexivity. Qed.

Lemma read_message_layout (h b rest : list ascii) rx (n : nat) :
  n = length b → (n ≤ 512)%nat →
  h = sprintf_4d (to_int (N.of_nat n)) →
  ∃ tl, Session.read_message (h ++ b ++ rest) rx
        = Some ({| data := h ++ b ++ tl; bodyLength_ := N.of_nat n |}, rest).
Proof.
  intros Hn Hle Hh. pose proof (header_length n Hle) as Hl. rewrite <- Hh in Hl.
  unfold Session.read_message. change (N.to_nat header) with 4%nat.
  destruct (Nat.ltb_spec (length (h ++ b ++ rest)) 4) as [Hlt|_];
    [rewrite length_app in Hlt; lia|].
  rewrite memcpy_front, (take_app_length' _ _ 4) by done.
  cbn [data bodyLength_]. rewrite Hh, decodeHeader_of_header by done.
  rewrite <- Hh. cbn [data bodyLength_]. unfold getBodyLength. cbn [bodyLength_].
  rewrite Nat2N.id, (drop_app_length' _ _ 4) by done.
  destruct (Nat.ltb_spec (length (b ++ rest)) n) as [Hlt|_];
    [rewrite length_app in Hlt; lia|].
  rewrite memcpy_after by done.
  rewrite (take_app_length' _ _ n), (drop_app_length' _ _ n) by done.
  eauto.
Qed.

(** C1. Round trip: for every body [b] of at most 512 bytes, the
    constructor (and [setBody], which runs the same three steps) builds a
    frame of [4 + len b] bytes, and decoding it gives back exactly [b]:
    both [decodeHeader] then [getBody] on the object itself, and the
    receiver's read cycle on the frame's bytes arriving on a stream,
    whatever the receiving object's array held and whatever follows the
    frame. *)
Theorem encode_decode_roundtrip raw rx b rest :
  (length b ≤ 512)%nat →
  ∃ m, Message_of_string raw b = Ok m
     ∧ setBody b raw = Ok m
     ∧ length (getData m) = (4 + length b)%nat
     ∧ (∃ m', decodeHeader m = (true, m') ∧ getBody m' = b)
     ∧ (∃ m', Session.read_message (getData m ++ rest) rx = Some (m', rest)
              ∧ getBody m' = b).
Proof.
  intros Hb. pose proof (header_length _ Hb) as Hl.
  eexists. split; [by apply Message_of_string_layout|].
  split; [by rewrite setBody_is_constructor, Message_of_string_layout|].
  rewrite getData_layout by done.
  split; [rewrite length_app; lia|]. split.
  - eexists. split; [by apply decodeHeader_of_header|].
    by apply getBody_layout.
  - rewrite <- app_assoc.
    destruct (read_message_layout _ b rest rx _ eq_refl Hb eq_refl) as [tl ->].
    eexists. split; [done|]. by apply getBody_layout.
Qed.

Lemma encode_decode_roundtrip_witness :
  let raw := Message_default (buffer_of []) in
  let b := str "hi" in
  (length b ≤ 512)%nat ∧
  ∃ m, Message_of_string raw b = Ok m
     ∧ setBody b raw = Ok m
     ∧ length (getData m) = (4 + length b)%nat
     ∧ (∃ m', decodeHeader m = (true, m') ∧ getBody m' = b)
     ∧ (∃ m', Session.read_message (getData m ++ str "  13Hello, world!") raw
              = Some (m', str "  13Hello, world!")
              ∧ getBody m' = b).
Proof.
  cbv zeta. split.
  - apply Nat.leb_le. reflexivity.
  - apply (encode_decode_roundtrip _ _ (str "hi")).
    apply Nat.leb_le. reflexivity.
Defined.

Lemma Message_of_string_throws raw b :
  (512 < length b)%nat → Message_of_string raw b = Throw length_error.
Proof.
  intros Hb. unfold Message_of_string.
  by rewrite setBodyLength_throws by (unfold maxBytes; lia).
Qed.

Lemma header_right_justified (n : nat) :
  (n ≤ 512)%nat →
  right_justified 4 (decimal (N.of_nat n)) (sprintf_4d (to_int (N.of_nat n))).
Proof.
  intros Hn. split; [by apply header_length|].
  eexists. by apply header_decimal.
Qed.

(** C7. Encoding is refused with [length_error] exactly when the body has
    more than 512 bytes (so a 513-byte body is refused); it succeeds
    exactly when the body has at most 512 bytes, and the frame is then a
    4-byte header, the decimal body length right-justified with spaces,
    followed by the body. *)
Theorem encode_oversize_iff raw b :
  (Message_of_string raw b = Throw length_error ↔ (512 < length b)%nat)
  ∧ ((∃ m, Message_of_string raw b = Ok m) ↔ (length b ≤ 512)%nat)
  ∧ (length b = 513%nat → Message_of_string raw b = Throw length_error)
  ∧ (∀ m, Message_of_string raw b = Ok m →
       ∃ h, right_justified 4 (decimal (N.of_nat (length b))) h
            ∧ getData m = h ++ b).
Proof.
  destruct (decide (length b ≤ 512)%nat) as [Hle|Hgt].
  - pose proof (Message_of_string_layout raw b Hle) as Hok.
    repeat split.
    + rewrite Hok. discriminate.
    + lia.
    + done.
    + eauto.
    + lia.
    + intros m Hm. rewrite Hok in Hm. injection Hm as <-.
      eexists. split; [by apply header_right_justified|].
      apply getData_layout. by apply header_length.
  - pose proof (Message_of_string_throws raw b ltac:(lia)) as Hthrow.
    repeat split.
    + lia.
    + done.
    + intros [m Hm]. congruence.
    + lia.
    + done.
    + intros m Hm. congruence.
Qed.

Lemma encode_oversize_iff_witness :
  let raw := Message_default (buffer_of []) in
  let big := replicate 513 (ascii_of_N 120) in
  Message_of_string raw big = Throw length_error
  ∧ ∃ h, right_justified 4 (decimal 2) h
         ∧ getData {| data := buffer_of (str "   2ok"); bodyLength_ := 2 |}
           = h ++ str "ok".
Proof.
  cbv zeta. split.
  - apply (encode_oversize_iff (Message_default (buffer_of []))
             (replicate 513 (ascii_of_N 120))).
    reflexivity.
  - apply (encode_oversize_iff (Message_default (buffer_of [])) (str "ok")).
    vm_compute. reflexivity.
Defined.

(** C8. For every body of [n <= 512] bytes the first four bytes of the
    encoded object are the decimal numeral of [n], right-justified in a
    4-character field padded with spaces, and the frame is that header
    followed by the body. The 13-byte body "Hello, world!" gets the header
    "  13" and the 17-byte frame "  13Hello, world!". *)
Theorem header_is_right_justified_decimal :
  (∀ raw b, (length b ≤ 512)%nat →
     ∃ m, Message_of_string raw b = Ok m
        ∧ right_justified 4 (decimal (N.of_nat (length b))) (take 4 (data m))
        ∧ getData m = take 4 (data m) ++ b)
  ∧ (∀ raw, ∃ m, Message_of_string raw (str "Hello, world!") = Ok m
        ∧ take 4 (data m) = str "  13"
        ∧ getData m = str "  13Hello, world!"
        ∧ length (getData m) = 17%nat).
Proof.
  split.
  - intros raw b Hb. pose proof (header_length _ Hb) as Hl.
    eexists. split; [by apply Message_of_string_layout|].
    cbn [data]. rewrite (take_app_length' _ _ 4) by done.
    split; [by apply header_right_justified|].
    by apply getData_layout.
  - intros raw. eexists.
    split; [apply Message_of_string_layout; simpl; lia|].
    cbn [data]. repeat split.
Qed.

Lemma header_is_right_justified_decimal_witness :
  let raw := Message_default (buffer_of []) in
  let b := str "0123456789" in
  (length b ≤ 512)%nat ∧
  ∃ m, Message_of_string raw b = Ok m
     ∧ right_justified 4 (decimal (N.of_nat (length b))) (take 4 (data m))
     ∧ getData m = take 4 (data m) ++ b.
Proof.
  cbv zeta. split.
  - apply Nat.leb_le. reflexivity.
  - apply (proj1 header_is_right_justified_decimal).
    apply Nat.leb_le. reflexivity.
Defined.

(** C9. A failing [decodeHeader] stores body length 0 (and leaves the
    array alone), whatever length the object held before. *)
Theorem decodeHeader_failure_zeroes_length m :
  (decodeHeader m).1 = false →
  getBodyLength (decodeHeader m).2 = 0
  ∧ data (decodeHeader m).2 = data m.
Proof.
  unfold decodeHeader.
  destruct (_ || _)%bool; cbn [fst snd]; [done | discriminate].
Qed.

Lemma decodeHeader_failure_zeroes_length_witness :
  let m := {| data := buffer_of (str "9999"); bodyLength_ := 7 |} in
  getBodyLength m = 7
  ∧ (decodeHeader m).1 = false
  ∧ getBodyLength (decodeHeader m).2 = 0
  ∧ data (decodeHeader m).2 = data m.
Proof.
  cbv zeta. split; [reflexivity|]. split; [reflexivity|].
  apply (decodeHeader_failure_zeroes_length
           {| data := buffer_of (str "9999"); bodyLength_ := 7 |}).
  reflexivity.
Defined.

(** [decodeHeader] accepts exactly when the value [atoi] finds in the
    first four bytes lies in 0..512. *)
Lemma decodeHeader_accepts_iff m :
  let v := atoi (take 4 (data m) ++ [NUL]) in
  ((decodeHeader m).1 = true ↔ (0 ≤ v ≤ 512)%Z)
  ∧ ((decodeHeader m).1 = true → getBodyLength (decodeHeader m).2 = Z.to_N v).
Proof.
  cbv zeta. unfold decodeHeader. change (N.to_nat header) with 4%nat.
  change (Z.of_N maxBytes) with 512%Z.
  destruct (Z.ltb_spec (atoi (take 4 (data m) ++ [NUL])) 0);
    destruct (Z.ltb_spec 512 (atoi (take 4 (data m) ++ [NUL])));
    cbn [orb fst snd]; (split; [split; [try discriminate; lia | try done; lia] | try done]).
Qed.

(** C2. [decodeHeader] on the header "0000" succeeds with length 0 and on
    "9999" fails, as described; but on the non-numeric header "abcd" it
    succeeds with length 0, and on "12ab" with length 12, where the
    description has it fail: [atoi] reports no error and yields the value
    of the digits it found, 0 when there are none. *)
Theorem decodeHeader_accepts_non_numeric :
  let on (text : string) := {| data := buffer_of (str text); bodyLength_ := 7 |} in
  decodeHeader (on "0000"%string) = (true, {| data := data (on "0000"%string); bodyLength_ := 0 |})
  ∧ decodeHeader (on "9999"%string) = (false, {| data := data (on "9999"%string); bodyLength_ := 0 |})
  ∧ decodeHeader (on "abcd"%string) = (true, {| data := data (on "abcd"%string); bodyLength_ := 0 |})
  ∧ decodeHeader (on "12ab"%string) = (true, {| data := data (on "12ab"%string); bodyLength_ := 12 |}).
Proof. cbv zeta. repeat split. Qed.

End CodecProperties.

Section RoomProperties.
Import Room.

Implicit Types (r : Room) (p sender : N) (msg F : Message)
  (q h : list Message) (calls : list Call) (qs : list request)
  (rq : request).

Lemma elem_of_in_order (s : gset N) p : p ∈ in_order s ↔ p ∈ s.
Proof.
  unfold in_order. rewrite merge_sort_Permutation. apply elem_of_elements.
Qed.

Lemma NoDup_in_order (s : gset N) : NoDup (in_order s).
Proof.
  unfold in_order. rewrite merge_sort_Permutation. apply NoDup_elements.
Qed.

Lemma Sorted_in_order (s : gset N) : Sorted N.le (in_order s).
Proof. apply Sorted_merge_sort; apply _. Qed.

Lemma filter_eq_not_elem (l : list N) p :
  p ∉ l → filter (λ x, x = p) l = [].
Proof.
  induction l as [|y l IHl]; [done|]. intros Hp.
  apply not_elem_of_cons in Hp as [Hne Hp].
  rewrite filter_cons_False by done. by apply IHl.
Qed.

Lemma filter_eq_NoDup (l : list N) p :
  NoDup l → p ∈ l → filter (λ x, x = p) l = [p].
Proof.
  induction 1 as [|x l Hx Hl IH]; [by intros ?%elem_of_nil|].
  intros Hp. rewrite filter_cons. destruct (decide (x = p)) as [->|Hne].
  - f_equal. by apply filter_eq_not_elem.
  - apply IH. apply elem_of_cons in Hp as [->|Hp]; done.
Qed.

Lemma received_by_app p calls1 calls2 :
  received_by p (calls1 ++ calls2)
  = received_by p calls1 ++ received_by p calls2.
Proof. unfold received_by. by rewrite filter_app, fmap_app. Qed.

Lemma received_by_to (l : list N) p msg :
  received_by p ((λ x, (x, msg)) <$> l)
  = (λ _, msg) <$> filter (λ x, x = p) l.
Proof.
  unfold received_by. induction l as [|x l IH]; [done|].
  rewrite fmap_cons, !filter_cons. cbn [fst].
  destruct (decide (x = p)); by rewrite ?fmap_cons, IH.
Qed.

Lemma received_by_replay p h :
  received_by p ((λ msg, (p, msg)) <$> h) = h.
Proof.
  unfold received_by. induction h as [|m h IH]; [done|].
  rewrite fmap_cons, filter_cons_True by done. by rewrite fmap_cons, IH.
Qed.

Lemma received_by_other p p' h :
  p' ≠ p → received_by p' ((λ msg, (p, msg)) <$> h) = [].
Proof.
  intros Hne. unfold received_by. induction h as [|m h IH]; [done|].
  rewrite fmap_cons, filter_cons_False; [done|]. cbn [fst]. congruence.
Qed.

Lemma join_calls p r : (join p r).2 = (λ msg, (p, msg)) <$> MessageQueue r.
Proof. reflexivity. Qed.

Lemma exec_cons rq qs r :
  (exec (rq :: qs) r).1 = (exec qs (serve rq r).1).1
  ∧ (exec (rq :: qs) r).2 = (serve rq r).2 ++ (exec qs (serve rq r).1).2.
Proof.
  simpl. destruct (serve rq r) as [r1 c1]. simpl.
  by destruct (exec qs r1) as [r2 c2].
Qed.

Lemma window_short q : (length q ≤ 50)%nat → window q = q.
Proof.
  intros Hq. unfold window.
  by replace (length q - 50)%nat with 0%nat by lia.
Qed.

Lemma length_window q : (length (window q) ≤ 50)%nat.
Proof. unfold window. rewrite length_drop. lia. Qed.

(** One [push_back] and the conditional [pop_front] keep the queue the
    last 50 of everything pushed. *)
Lemma deliver_window sender msg r (rest : list Message) :
  (length (MessageQueue r) ≤ 50)%nat →
  (length (MessageQueue (deliver sender msg r).1) ≤ 50)%nat
  ∧ window (MessageQueue (deliver sender msg r).1 ++ rest)
    = window (MessageQueue r ++ msg :: rest).
Proof.
  intros Hq. unfold deliver. cbn [fst MessageQueue].
  destruct (Nat.ltb_spec 50 (length (MessageQueue r ++ [msg]))) as [Hlt|Hle];
    rewrite length_app in *; cbn [length] in *.
  - destruct (MessageQueue r) as [|x q']; cbn [length] in *; [lia|].
    cbn [app tail]. split; [rewrite length_app; simpl; lia|].
    unfold window. rewrite <- app_assoc. cbn [app].
    rewrite !length_app. cbn [length]. rewrite !length_app. cbn [length].
    replace (S (length q' + S (length rest)) - 50)%nat
      with (S (length q' + S (length rest) - 50))%nat by lia.
    done.
  - split; [lia|]. by rewrite <- app_assoc.
Qed.

Lemma exec_MessageQueue qs r :
  (length (MessageQueue r) ≤ 50)%nat →
  (length (MessageQueue (exec qs r).1) ≤ 50)%nat
  ∧ MessageQueue (exec qs r).1 = window (MessageQueue r ++ broadcasts qs).
Proof.
  revert r. induction qs as [|rq qs IH]; intros r Hq.
  - simpl. rewrite app_nil_r. by rewrite window_short.
  - destruct (exec_cons rq qs r) as [-> _].
    destruct rq as [p|p|sender msg]; cbn [serve broadcasts fst].
    + exact (IH (join p r).1 Hq).
    + exact (IH (leave p r) Hq).
    + destruct (deliver_window sender msg r (broadcasts qs) Hq) as [Hq1 <-].
      exact (IH (deliver sender msg r).1 Hq1).
Qed.

Lemma broadcasts_broadcast_all (bs : list (N * Message)) :
  broadcasts (broadcast_all bs) = bs.*2.
Proof. induction bs as [|[??] bs IH]; [done|]. simpl. by f_equal. Qed.

(** C3. In every state a [Room] can reach, the history holds at most 50
    messages and is the last 50 of all messages broadcast so far, oldest
    first. Broadcasting [n] further messages leaves the last 50 of the old
    history followed by the new messages: exactly the last 50 new messages
    when [n > 50], and a history that ends with all [n] of them, in
    broadcast order, when [n <= 50]. *)
Theorem history_is_last_50_broadcasts qs (bs : list (N * Message)) :
  let r := (exec qs Room_default).1 in
  let r' := (exec (broadcast_all bs) r).1 in
  let msgs := bs.*2 in
  (length (MessageQueue r) ≤ 50)%nat
  ∧ MessageQueue r = drop (length (broadcasts qs) - 50) (broadcasts qs)
  ∧ (length (MessageQueue r') ≤ 50)%nat
  ∧ ((50 < length msgs)%nat →
     MessageQueue r' = drop (length msgs - 50) msgs)
  ∧ ((length msgs ≤ 50)%nat →
     MessageQueue r'
     = drop (length (MessageQueue r) + length msgs - 50) (MessageQueue r)
         ++ msgs).
Proof.
  cbv zeta.
  destruct (exec_MessageQueue qs Room_default) as [Hlen Hq]; [simpl; lia|].
  destruct (exec_MessageQueue (broadcast_all bs) (exec qs Room_default).1 Hlen)
    as [Hlen' Hq'].
  rewrite broadcasts_broadcast_all in Hq'.
  repeat split; try done.
  - intros Hn. rewrite Hq'. unfold window. rewrite length_app.
    rewrite drop_app_ge by lia. f_equal. lia.
  - intros Hn. rewrite Hq'. unfold window. rewrite length_app.
    by rewrite drop_app_le by lia.
Qed.

Lemma history_is_last_50_broadcasts_witness :
  let bs60 := (λ i, (1, numbered i)) <$> seq 0 60 in
  let bs3 := (λ i, (2, numbered i)) <$> seq 0 3 in
  MessageQueue (exec (broadcast_all bs60) Room_default).1 = drop 10 bs60.*2
  ∧ MessageQueue (exec (broadcast_all bs3) Room_default).1 = bs3.*2.
Proof.
  cbv zeta. split.
  - destruct (history_is_last_50_broadcasts []
                ((λ i, (1, numbered i)) <$> seq 0 60)) as (_ & _ & _ & H & _).
    apply H. apply Nat.ltb_lt. reflexivity.
  - destruct (history_is_last_50_broadcasts []
                ((λ i, (2, numbered i)) <$> seq 0 3)) as (_ & _ & _ & _ & H).
    apply H. apply Nat.leb_le. reflexivity.
Defined.

Lemma dispatch_lookup calls (sessions : gmap N Session.Session) p :
  Server.dispatch calls sessions !! p
  = (λ s, foldl (λ s msg, Session.deliver msg s) s (received_by p calls))
      <$> sessions !! p.
Proof.
  revert sessions. induction calls as [|[p' msg] calls IH]; intros sessions.
  - simpl. by destruct (sessions !! p).
  - unfold Server.dispatch in *. cbn [foldl fst snd]. rewrite IH.
    unfold received_by. rewrite filter_cons. cbn [fst].
    rewrite lookup_alter. destruct (decide (p' = p)) as [->|Hne].
    + by destruct (sessions !! p).
    + done.
Qed.

Lemma deliver_calls sender F r :
  (deliver sender F r).2
  = (λ x, (x, F)) <$> filter (λ x, x ≠ sender) (in_order (participants r)).
Proof. reflexivity. Qed.

Lemma elem_of_others (s : gset N) sender p :
  p ∈ filter (λ x, x ≠ sender) (in_order s) ↔ p ∈ s ∧ p ≠ sender.
Proof. rewrite list_elem_of_filter, elem_of_in_order. tauto. Qed.

Lemma NoDup_others (s : gset N) sender :
  NoDup (filter (λ x, x ≠ sender) (in_order s)).
Proof. apply NoDup_filter, NoDup_in_order. Qed.

Lemma received_by_deliver_sender sender F r :
  received_by sender (deliver sender F r).2 = [].
Proof.
  rewrite deliver_calls, received_by_to, filter_eq_not_elem; [done|].
  rewrite elem_of_others. tauto.
Qed.

Lemma received_by_deliver_member sender F r p :
  p ∈ participants r → p ≠ sender →
  received_by p (deliver sender F r).2 = [F].
Proof.
  intros ? ?. rewrite deliver_calls, received_by_to, filter_eq_NoDup; [done| |].
  - apply NoDup_others.
  - by apply elem_of_others.
Qed.

Lemma received_by_deliver_outsider sender F r p :
  p ∉ participants r → received_by p (deliver sender F r).2 = [].
Proof.
  intros ?. rewrite deliver_calls, received_by_to, filter_eq_not_elem; [done|].
  rewrite elem_of_others. tauto.
Qed.

(** C4. [Room::deliver(sender, F)] calls [deliver] on exactly the members
    other than [sender], once each, always with [F]; [sender] gets no call,
    and neither does anyone outside the room. On the sessions this means:
    the sender's session is left as it was, and each other member's
    session has run [Session::deliver(F)] once. The membership itself is
    unchanged. This holds for every [sender], member or not. *)
Theorem broadcast_reaches_all_but_sender r sender F :
  let calls := (deliver sender F r).2 in
  (∀ p msg, (p, msg) ∈ calls ↔ p ∈ participants r ∧ p ≠ sender ∧ msg = F)
  ∧ NoDup calls
  ∧ received_by sender calls = []
  ∧ (∀ p, p ∈ participants r → p ≠ sender → received_by p calls = [F])
  ∧ (∀ p, p ∉ participants r → received_by p calls = [])
  ∧ participants (deliver sender F r).1 = participants r
  ∧ (∀ sessions : gmap N Session.Session,
       Server.dispatch calls sessions !! sender = sessions !! sender)
  ∧ (∀ (sessions : gmap N Session.Session) p,
       p ∈ participants r → p ≠ sender →
       Server.dispatch calls sessions !! p
       = Session.deliver F <$> sessions !! p).
Proof.
  cbv zeta. split_and!.
  - intros p msg. rewrite deliver_calls, list_elem_of_fmap. split.
    + intros (x & [= -> ->] & Hx). apply elem_of_others in Hx. tauto.
    + intros (? & ? & ->). eexists. split; [done|]. by apply elem_of_others.
  - rewrite deliver_calls. apply NoDup_fmap_2; [|apply NoDup_others].
    by intros ?? [= ->].
  - apply received_by_deliver_sender.
  - intros p ? ?. by apply received_by_deliver_member.
  - intros p ?. by apply received_by_deliver_outsider.
  - done.
  - intros sessions. rewrite dispatch_lookup, received_by_deliver_sender.
    by destruct (sessions !! sender).
  - intros sessions p ? ?.
    rewrite dispatch_lookup, received_by_deliver_member by done.
    by destruct (sessions !! p).
Qed.

Lemma broadcast_reaches_all_but_sender_witness :
  let r := {| participants := {[1; 2; 3]}; MessageQueue := [] |} in
  let F := numbered 7 in
  received_by 1 (deliver 2 F r).2 = [F]
  ∧ received_by 4 (deliver 2 F r).2 = [].
Proof.
  cbv zeta.
  destruct (broadcast_reaches_all_but_sender
              {| participants := {[1; 2; 3]}; MessageQueue := [] |}
              2 (numbered 7)) as (_ & _ & _ & Hin & Hout & _).
  split.
  - apply Hin; [vm_compute; reflexivity | discriminate].
  - apply Hout. vm_compute. discriminate.
Defined.

Lemma broadcast_all_cons sender msg (bs : list (N * Message)) :
  broadcast_all ((sender, msg) :: bs) = Broadcast sender msg :: broadcast_all bs.
Proof. reflexivity. Qed.

Lemma exec_participants_broadcasts (bs : list (N * Message)) r :
  participants (exec (broadcast_all bs) r).1 = participants r.
Proof.
  revert r. induction bs as [|[sender msg] bs IH]; intros r; [done|].
  rewrite broadcast_all_cons.
  destruct (exec_cons (Broadcast sender msg) (broadcast_all bs) r) as [-> _].
  apply (IH (deliver sender msg r).1).
Qed.

(** A member is handed every message others broadcast, in order. *)
Lemma received_by_broadcasts (bs : list (N * Message)) r p :
  p ∈ participants r → Forall (λ b, b.1 ≠ p) bs →
  received_by p (exec (broadcast_all bs) r).2 = bs.*2.
Proof.
  intros Hp Hbs. revert r Hp.
  induction Hbs as [|[sender msg] bs Hne Hbs IH]; intros r Hp; [done|].
  rewrite broadcast_all_cons.
  destruct (exec_cons (Broadcast sender msg) (broadcast_all bs) r) as [_ ->].
  rewrite received_by_app. cbn [serve fst snd].
  rewrite received_by_deliver_member by done.
  rewrite (IH (deliver sender msg r).1 Hp). done.
Qed.

(** C5. [join(p)] on a room with history [m1..mk] makes [p] a member
    (the other members and the history stay) and calls [p->deliver] on
    [m1, ..., mk] in that order, and nobody else's. In any continuation
    these calls come first: what [p] is handed by [join(p)] followed by
    further requests is the history followed by what those requests hand
    it; followed by broadcasts from others, it is the history and then
    those messages in broadcast order. On [p]'s session the replay runs
    [Session::deliver] on [m1, ..., mk] in turn. *)
Theorem join_replays_history r p qs (bs : list (N * Message)) :
  let r1 := (join p r).1 in
  let replay := (join p r).2 in
  p ∈ participants r1
  ∧ participants r1 = {[p]} ∪ participants r
  ∧ MessageQueue r1 = MessageQueue r
  ∧ replay = (λ msg, (p, msg)) <$> MessageQueue r
  ∧ received_by p replay = MessageQueue r
  ∧ (∀ p', p' ≠ p → received_by p' replay = [])
  ∧ (exec (Join p :: qs) r).2 = replay ++ (exec qs r1).2
  ∧ received_by p (exec (Join p :: qs) r).2
    = MessageQueue r ++ received_by p (exec qs r1).2
  ∧ (Forall (λ b, b.1 ≠ p) bs →
     received_by p (exec (Join p :: broadcast_all bs) r).2
     = MessageQueue r ++ bs.*2)
  ∧ (∀ sessions : gmap N Session.Session,
       Server.dispatch replay sessions !! p
       = (λ s, foldl (λ s msg, Session.deliver msg s) s (MessageQueue r))
           <$> sessions !! p).
Proof.
  cbv zeta. unfold join at 1 2 3 4 5 6. cbn [fst snd participants MessageQueue].
  assert (∀ qs', (exec (Join p :: qs') r).2
            = ((λ msg, (p, msg)) <$> MessageQueue r) ++ (exec qs' (join p r).1).2)
    as Hseq by (intros qs'; by destruct (exec_cons (Join p) qs' r) as [_ ->]).
  split_and!.
  - set_solver.
  - done.
  - done.
  - done.
  - apply received_by_replay.
  - intros p' Hne. by apply received_by_other.
  - apply Hseq.
  - by rewrite Hseq, received_by_app, received_by_replay.
  - intros Hbs. rewrite Hseq, received_by_app, received_by_replay.
    f_equal. apply received_by_broadcasts; [|done].
    cbn [join fst participants]. set_solver.
  - intros sessions. rewrite dispatch_lookup. unfold join.
    cbn [snd MessageQueue]. by rewrite received_by_replay.
Qed.

Lemma join_replays_history_witness :
  let r := {| participants := {[1]}; MessageQueue := [numbered 0; numbered 1] |} in
  received_by 5 (exec (Join 5 :: broadcast_all [(1, numbered 2)]) r).2
  = [numbered 0; numbered 1] ++ [numbered 2].
Proof.
  cbv zeta.
  destruct (join_replays_history
              {| participants := {[1]};
                 MessageQueue := [numbered 0; numbered 1] |}
              5 [] [(1, numbered 2)]) as (_ & _ & _ & _ & _ & _ & _ & _ & H & _).
  apply H. repeat constructor. discriminate.
Defined.

(** C10. [join(p)] for a [p] that is already a member leaves the room as
    it was, [p] still a member exactly once; yet it calls [p->deliver] on
    the whole history again, one call per stored message, in order. Two
    joins in a row hand [p] the history twice, so with a non-empty history
    the second join is not a no-op for [p]. *)
Theorem rejoin_replays_history_again r p :
  p ∈ participants r →
  participants (join p r).1 = participants r
  ∧ (join p r).1 = r
  ∧ filter (λ x, x = p) (in_order (participants (join p r).1)) = [p]
  ∧ (join p r).2 = (λ msg, (p, msg)) <$> MessageQueue r
  ∧ length (join p r).2 = length (MessageQueue r)
  ∧ received_by p (join p r).2 = MessageQueue r
  ∧ received_by p (exec [Join p; Join p] r).2 = MessageQueue r ++ MessageQueue r
  ∧ (MessageQueue r ≠ [] →
     received_by p (exec [Join p; Join p] r).2
     ≠ received_by p (exec [Join p] r).2).
Proof.
  intros Hp.
  assert ({[p]} ∪ participants r = participants r) as Hsame by set_solver.
  assert ((join p r).1 = r) as Hr.
  { unfold join. cbn [fst]. rewrite Hsame. by destruct r. }
  assert (received_by p (exec [Join p; Join p] r).2
          = MessageQueue r ++ MessageQueue r) as Htwice.
  { destruct (exec_cons (Join p) [Join p] r) as [_ ->].
    destruct (exec_cons (Join p) [] (serve (Join p) r).1) as [_ ->].
    cbn [serve exec snd]. rewrite app_nil_r, received_by_app.
    by rewrite Hr, !join_calls, !received_by_replay. }
  split_and!.
  - by rewrite Hr.
  - done.
  - rewrite Hr. apply filter_eq_NoDup; [apply NoDup_in_order|].
    by apply elem_of_in_order.
  - done.
  - by rewrite join_calls, length_fmap.
  - by rewrite join_calls, received_by_replay.
  - done.
  - intros Hne. rewrite Htwice.
    destruct (exec_cons (Join p) [] r) as [_ ->].
    cbn [serve exec snd]. rewrite app_nil_r, join_calls, received_by_replay.
    intros Heq. apply (f_equal length) in Heq. rewrite length_app in Heq.
    destruct (MessageQueue r); [done|]. simpl in Heq. lia.
Qed.

Lemma rejoin_replays_history_again_witness :
  let r := {| participants := {[1; 2]}; MessageQueue := [numbered 0] |} in
  participants (join 2 r).1 = participants r
  ∧ received_by 2 (exec [Join 2; Join 2] r).2 = [numbered 0; numbered 0]
  ∧ received_by 2 (exec [Join 2; Join 2] r).2 ≠ received_by 2 (exec [Join 2] r).2.
Proof.
  cbv zeta.
  destruct (rejoin_replays_history_again
              {| participants := {[1; 2]}; MessageQueue := [numbered 0] |} 2)
    as (H1 & _ & _ & _ & _ & _ & H2 & H3).
  - vm_compute. reflexivity.
  - split; [exact H1|]. split; [exact H2|]. apply H3. discriminate.
Defined.

End RoomProperties.

Section SessionProperties.
Import Session.

Implicit Types (s : Session) (msg : Message) (es : list event)
  (D : list Message).

Lemma frames_app (l1 l2 : list Message) :
  frames (l1 ++ l2) = frames l1 ++ frames l2.
Proof. unfold frames. by rewrite fmap_app, concat_app. Qed.

Lemma frames_cons msg (l : list Message) :
  frames (msg :: l) = write_buffer msg ++ frames l.
Proof. reflexivity. Qed.

Lemma deliver_idle msg s :
  outgoingMessages s = [] →
  deliver msg s = {| outgoingMessages := [msg];
                     in_flight := in_flight s ++ [write_buffer msg];
                     transmitted := transmitted s;
                     left_room := left_room s |}.
Proof. intros Hq. unfold deliver. rewrite Hq. reflexivity. Qed.

Lemma deliver_busy msg s :
  outgoingMessages s ≠ [] →
  deliver msg s = {| outgoingMessages := outgoingMessages s ++ [msg];
                     in_flight := in_flight s;
                     transmitted := transmitted s;
                     left_room := left_room s |}.
Proof.
  intros Hq. unfold deliver. cbn [outgoingMessages].
  destruct (outgoingMessages s) as [|m0 [|m1 q]]; done.
Qed.

Lemma frames_nil : frames [] = [].
Proof. reflexivity. Qed.

Lemma write_chain_step D e s s' :
  write_chain D s → step e s = Some s' →
  write_chain (D ++ delivered [e]) s'.
Proof.
  intros [(Hl & Heq & Hw)|(Hl & Hfl & Hq & Hpre)] Hstep.
  - destruct e as [msg| |sent]; cbn [step delivered] in *.
    + injection Hstep as <-. left.
      destruct Hw as [[Hq Hfl]|(m0 & q & Hq & Hfl)].
      * rewrite deliver_idle by done. cbn. rewrite Hfl.
        split_and!; [done| |right; eauto].
        rewrite Hq, frames_nil, app_nil_r in Heq.
        by rewrite frames_app, <- Heq.
      * rewrite deliver_busy by (by rewrite Hq). cbn.
        split_and!; [done| |right; rewrite Hq; eauto].
        by rewrite !frames_app, <- Heq, <- app_assoc.
    + rewrite app_nil_r.
      destruct Hw as [[Hq Hfl]|(m0 & q & Hq & Hfl)];
        rewrite Hfl in Hstep; [done|].
      injection Hstep as <-. left. unfold on_write_ok.
      cbn [outgoingMessages in_flight transmitted left_room].
      rewrite Hq in *. cbn [tail]. rewrite frames_cons in Heq.
      destruct q as [|m1 q'].
      * cbn. split_and!; [done| |by left]. by rewrite <- app_assoc.
      * cbn. split_and!; [done| |right; eauto]. by rewrite <- app_assoc.
    + rewrite app_nil_r.
      destruct Hw as [[Hq Hfl]|(m0 & q & Hq & Hfl)];
        rewrite Hfl in Hstep; [done|].
      destruct (sent <? length (write_buffer m0))%nat; [|done].
      injection Hstep as <-. right. cbn.
      split_and!; [done..|by rewrite Hq|].
      rewrite <- Heq, Hq, frames_cons. apply prefix_app, prefix_app_r.
      apply prefix_take.
  - destruct e as [msg| |sent]; cbn [step delivered] in *.
    + injection Hstep as <-. right. rewrite deliver_busy by done. cbn.
      split_and!; [done..| |].
      * by destruct (outgoingMessages s).
      * rewrite frames_app. by apply prefix_app_r.
    + by rewrite Hfl in Hstep.
    + by rewrite Hfl in Hstep.
Qed.

Lemma delivered_cons e es : delivered (e :: es) = delivered [e] ++ delivered es.
Proof. by destruct e. Qed.

Lemma write_chain_run es : ∀ D s s',
  write_chain D s → run es s = Some s' → write_chain (D ++ delivered es) s'.
Proof.
  induction es as [|e es IH]; intros D s s' Hinv Hrun.
  - injection Hrun as <-. by rewrite app_nil_r.
  - cbn [run] in Hrun. destruct (step e s) as [s1|] eqn:Hstep; [|done].
    rewrite delivered_cons, app_assoc.
    eapply IH; [|done]. by eapply write_chain_step.
Qed.

Lemma write_chain_new : write_chain [] Session_new.
Proof. left. split_and!; [done..|by left]. Qed.

Lemma write_chain_in_flight D s :
  write_chain D s → (length (in_flight s) ≤ 1)%nat.
Proof.
  intros [(_ & _ & [[_ ->]|(? & ? & _ & ->)])|(_ & -> & _)]; simpl; lia.
Qed.

Lemma write_chain_prefix D s :
  write_chain D s → transmitted s `prefix_of` frames D.
Proof.
  intros [(_ & <- & _)|(_ & _ & _ & ?)]; [|done]. by apply prefix_app_r.
Qed.

(** What [async_write] hands to the socket for a message is the message's
    frame, [getData]: the four header bytes and then the body. *)
Lemma write_buffer_getData msg : write_buffer msg = getData msg.
Proof. reflexivity. Qed.

Lemma frames_getData (l : list Message) : frames l = concat (getData <$> l).
Proof.
  unfold frames. induction l as [|m l IH]; [done|].
  rewrite !fmap_cons. cbn [concat]. by rewrite IH, write_buffer_getData.
Qed.

Lemma getData_header_body msg : getData msg = take 4 (data msg) ++ getBody msg.
Proof.
  unfold getData, getBody, header. rewrite N2Nat.inj_add.
  change (N.to_nat 4) with 4%nat. by rewrite take_take_drop.
Qed.

(** C6. [Session::deliver] appends the frame to the outbound queue and
    starts a write exactly when the queue then has length 1, that is when
    it was empty before; otherwise the outstanding writes are as they
    were. The buffer of a write is the message's frame: [getData], the four
    header bytes followed by the body, and for a message encoded from a text
    the right-justified decimal length followed by the text. In every state
    a session reaches from construction, through deliveries and write
    completions or failures in any order, at most one write is outstanding,
    before and after a further [deliver]; the bytes sent are a prefix of the
    frames handed over, in [deliver] order; and while no write has failed,
    the bytes sent followed by the frames still queued are exactly the
    frames handed over. For [F1], [F2], [F3] delivered to an idle session
    before any write completes, one write (of [F1]'s frame) is outstanding,
    and after three completions the socket has sent
    [getData F1 || getData F2 || getData F3]. *)
Theorem write_queue_serialises es s msg :
  run es Session_new = Some s →
  outgoingMessages (deliver msg s) = outgoingMessages s ++ [msg]
  ∧ (length (outgoingMessages (deliver msg s)) = 1%nat ↔ outgoingMessages s = [])
  ∧ (outgoingMessages s = [] →
     in_flight (deliver msg s) = in_flight s ++ [getData msg])
  ∧ (outgoingMessages s ≠ [] → in_flight (deliver msg s) = in_flight s)
  ∧ (write_buffer msg = getData msg
     ∧ getData msg = take 4 (data msg) ++ getBody msg)
  ∧ (∀ raw b F, Message_of_string raw b = Ok F →
       ∃ h, right_justified 4 (decimal (N.of_nat (length b))) h
            ∧ write_buffer F = h ++ b)
  ∧ (length (in_flight s) ≤ 1)%nat
  ∧ (length (in_flight (deliver msg s)) ≤ 1)%nat
  ∧ transmitted s `prefix_of` concat (getData <$> delivered es)
  ∧ (left_room s = false →
     transmitted s ++ concat (getData <$> outgoingMessages s)
     = concat (getData <$> delivered es))
  ∧ (∀ F1 F2 F3, outgoingMessages s = [] → left_room s = false →
     ∃ s3 s', run [Deliver F1; Deliver F2; Deliver F3] s = Some s3
            ∧ outgoingMessages s3 = [F1; F2; F3]
            ∧ in_flight s3 = [getData F1]
            ∧ transmitted s3 = transmitted s
            ∧ run [WriteDone; WriteDone; WriteDone] s3 = Some s'
            ∧ transmitted s'
              = transmitted s ++ getData F1 ++ getData F2 ++ getData F3
            ∧ transmitted s'
              = transmitted s
                  ++ (take 4 (data F1) ++ getBody F1)
                  ++ (take 4 (data F2) ++ getBody F2)
                  ++ (take 4 (data F3) ++ getBody F3)
            ∧ outgoingMessages s' = [] ∧ in_flight s' = []).
Proof.
  intros Hrun.
  pose proof (write_chain_run es [] Session_new s write_chain_new Hrun) as Hinv.
  rewrite app_nil_l in Hinv.
  assert (write_chain (delivered es ++ [msg]) (deliver msg s)) as Hinv'
    by (by apply (write_chain_step _ (Deliver msg) s)).
  split_and!.
  - destruct (decide (outgoingMessages s = [])) as [Hq|Hq].
    + rewrite deliver_idle by done. by rewrite Hq.
    + by rewrite deliver_busy.
  - destruct (decide (outgoingMessages s = [])) as [Hq|Hq].
    + rewrite deliver_idle by done. done.
    + rewrite deliver_busy by done. cbn [outgoingMessages].
      rewrite length_app. split; [|done].
      destruct (outgoingMessages s); [done|]. simpl. lia.
  - intros Hq. rewrite deliver_idle by done. cbn [in_flight].
    by rewrite write_buffer_getData.
  - intros Hq. by rewrite deliver_busy.
  - apply write_buffer_getData.
  - apply getData_header_body.
  - intros raw b F HF. rewrite write_buffer_getData.
    destruct (decide (length b ≤ 512)%nat) as [Hle|Hgt].
    + rewrite Message_of_string_layout in HF by done. injection HF as <-.
      eexists. split; [by apply header_right_justified|].
      apply getData_layout. by apply header_length.
    + by rewrite Message_of_string_throws in HF by lia.
  - by eapply write_chain_in_flight.
  - by eapply write_chain_in_flight.
  - rewrite <- frames_getData. by apply write_chain_prefix.
  - intros Hl. rewrite <- !frames_getData.
    destruct Hinv as [(_ & ? & _)|(Hl' & _)]; [done|congruence].
  - intros F1 F2 F3 Hq Hl.
    assert (in_flight s = []) as Hfl.
    { destruct Hinv as [(_ & _ & [[_ ?]|(? & ? & ? & _)])|(? & _)];
        [done|congruence..]. }
    destruct s as [q fl t l]. cbn in Hq, Hl, Hfl. subst q fl l.
    do 2 eexists. split; [reflexivity|]. split; [reflexivity|].
    split; [by rewrite <- write_buffer_getData|]. split; [reflexivity|].
    split; [reflexivity|].
    assert (∀ F, write_buffer F = getData F) as Hwb
      by apply write_buffer_getData.
    cbn. rewrite <- !getData_header_body, !Hwb, <- !app_assoc.
    by split_and!.
Qed.

Lemma write_queue_serialises_witness :
  let es := [Deliver (numbered 1); WriteDone] in
  let s := {| outgoingMessages := []; in_flight := [];
              transmitted := str "   11";
              left_room := false |} in
  run es Session_new = Some s
  ∧ (length (in_flight s) ≤ 1)%nat
  ∧ (length (in_flight (deliver (numbered 3) s)) ≤ 1)%nat
  ∧ in_flight (deliver (numbered 3) s) = [str "   13"]
  ∧ transmitted s `prefix_of` concat (getData <$> delivered es)
  ∧ ∃ s3 s', run [Deliver (numbered 4); Deliver (numbered 5);
                  Deliver (numbered 6)] s = Some s3
           ∧ in_flight s3 = [str "   14"]
           ∧ run [WriteDone; WriteDone; WriteDone] s3 = Some s'
           ∧ transmitted s' = str "   11" ++ str "   14" ++ str "   15" ++ str "   16"
           ∧ outgoingMessages s' = [] ∧ in_flight s' = [].
Proof.
  cbv zeta. split; [reflexivity|].
  destruct (write_queue_serialises
              [Deliver (numbered 1); WriteDone]
              {| outgoingMessages := []; in_flight := [];
                 transmitted := str "   11";
                 left_room := false |}
              (numbered 3) eq_refl)
    as (_ & _ & H0 & _ & _ & _ & H1 & H2 & H3 & _ & H4).
  split; [exact H1|]. split; [exact H2|]. split; [exact (H0 eq_refl)|].
  split; [exact H3|].
  destruct (H4 (numbered 4) (numbered 5) (numbered 6) eq_refl eq_refl)
    as (s3 & s' & Ha & _ & Hb & _ & Hc & Hd & _ & He & Hf).
  exists s3, s'. split; [exact Ha|]. split; [exact Hb|]. split; [exact Hc|].
  split; [exact Hd|]. split; [exact He|exact Hf].
Defined.

End SessionProperties.

(** * Worked examples *)

Section Examples.
Import Room Session.

Example sprintf_13 : sprintf_4d 13 = str "  13".
Proof. reflexivity. Qed.

Example sprintf_0 : sprintf_4d 0 = str "   0".
Proof. reflexivity. Qed.

Example sprintf_512 : sprintf_4d 512 = str " 512".
Proof. reflexivity. Qed.

Example atoi_signed : atoi (str " -12") = (-12)%Z ∧ atoi (str "+512") = 512%Z.
Proof. split; reflexivity. Qed.

Example atoi_stops_at_NUL : atoi [ascii_of_N 49; NUL; ascii_of_N 50] = 1%Z.
Proof. reflexivity. Qed.

Example in_order_ascending : in_order ({[5; 3; 9; 1]} : gset N) = [1; 3; 5; 9].
Proof. vm_compute. reflexivity. Qed.

(** Sixty distinct messages broadcast to a fresh room leave the last fifty,
    oldest first. *)
Example sixty_broadcasts :
  MessageQueue (exec (broadcast_all ((λ i, (1, numbered i)) <$> seq 0 60))
                  Room_default).1
  = numbered <$> seq 10 50.
Proof. vm_compute. reflexivity. Qed.

(** P1 joins an empty room and says "hi"; P2 joins and is replayed "hi";
    P2 says "yo": P1 is handed "yo" and P2 is not. *)
Example two_participants :
  let hi := {| data := buffer_of (str "   2hi"); bodyLength_ := 2 |} in
  let yo := {| data := buffer_of (str "   2yo"); bodyLength_ := 2 |} in
  (exec [Join 1; Broadcast 1 hi; Join 2; Broadcast 2 yo] Room_default).2
  = [(2, hi); (1, yo)].
Proof. vm_compute. reflexivity. Qed.

(** Leaving twice, or without having joined, changes nothing further. *)
Example leave_twice (r : Room) (p : N) : leave p (leave p r) = leave p r.
Proof. unfold leave. cbn. f_equal. set_solver. Qed.

End Examples.

(** * Further properties of the codec *)

Section MessageInvariant.

Implicit Types (b body rest stream : list ascii) (m raw rx : Message).

Lemma length_memcpy (dst src : list ascii) (off n : nat) :
  (n ≤ length src)%nat → (off + n ≤ length dst)%nat →
  length (memcpy dst off src n) = length dst.
Proof.
  intros Hsrc Hdst. unfold memcpy.
  rewrite !length_app, !length_take, length_drop. lia.
Qed.

Lemma decodeHeader_bound m :
  bodyLength_ (decodeHeader m).2 ≤ maxBytes ∧ data (decodeHeader m).2 = data m.
Proof.
  unfold decodeHeader. change (Z.of_N maxBytes) with 512%Z.
  set (v := atoi _).
  destruct (Z.ltb_spec v 0); destruct (Z.ltb_spec 512 v);
    cbn [orb snd bodyLength_ data]; unfold maxBytes; (split; [lia|done]).
Qed.

(** X1. The operations of [Message] keep the object well formed: on a
    516-byte array, [decodeHeader] (accepting or not), a successful
    [setBodyLength], a successful [setBody] and, when the stored length is
    within bound, [encodeHeader] all leave a 516-byte array and a stored
    length of at most 512; a successful [setBody] also leaves everything
    after the new frame as it was. *)
Theorem Message_wf_preserved m body :
  length (data m) = 516%nat →
  Message_wf (decodeHeader m).2
  ∧ (∀ n m', setBodyLength n m = Ok m' → Message_wf m')
  ∧ (∀ m', setBody body m = Ok m' →
       Message_wf m'
       ∧ drop (4 + length body) (data m') = drop (4 + length body) (data m))
  ∧ (bodyLength_ m ≤ maxBytes → Message_wf (encodeHeader m)).
Proof.
  intros Hlen. split_and!.
  - destruct (decodeHeader_bound m) as [Hb Hd]. split; [by rewrite Hd|done].
  - intros n m'. unfold setBodyLength.
    destruct (N.ltb_spec maxBytes n); [done|]. intros [= <-]. by split.
  - intros m' Hm'. rewrite setBody_is_constructor in Hm'.
    destruct (decide (length body ≤ 512)%nat) as [Hle|Hgt].
    + rewrite Message_of_string_layout in Hm' by done. injection Hm' as <-.
      pose proof (header_length _ Hle) as Hh. split; [split|].
      * cbn [data]. rewrite !length_app, !length_drop. lia.
      * cbn [bodyLength_]. unfold maxBytes. lia.
      * cbn [data].
        rewrite app_assoc, drop_app_length' by (rewrite length_app; lia).
        by rewrite drop_drop.
    + by rewrite Message_of_string_throws in Hm' by lia.
  - intros Hb. unfold encodeHeader. split; [|done]. cbn [data].
    assert (length (sprintf_4d (to_int (bodyLength_ m))) = 4%nat) as Hh.
    { rewrite <- (N2Nat.id (bodyLength_ m)). apply header_length.
      unfold maxBytes in Hb. lia. }
    change (N.to_nat header) with 4%nat.
    rewrite length_memcpy; [done|rewrite length_app; lia|lia].
Qed.

Lemma Message_wf_preserved_witness :
  let m := {| data := buffer_of (str "   5hello, old bytes"); bodyLength_ := 5 |} in
  Message_wf (decodeHeader m).2
  ∧ Message_wf (encodeHeader m)
  ∧ ∃ m', setBody (str "hi") m = Ok m'
          ∧ Message_wf m' ∧ drop 6 (data m') = drop 6 (data m).
Proof.
  cbv zeta.
  destruct (Message_wf_preserved
              {| data := buffer_of (str "   5hello, old bytes"); bodyLength_ := 5 |}
              (str "hi")) as (H1 & _ & H2 & H3).
  - reflexivity.
  - split; [exact H1|]. split; [apply H3; apply N.leb_le; reflexivity|].
    eexists. split; [reflexivity|]. apply H2. reflexivity.
Defined.

(** X2. The frame is the header bytes followed by the body: on every
    object [getData] is the first four bytes of the array followed by
    [getBody], and on a well-formed object it has exactly
    [4 + getBodyLength] bytes, [getBody] exactly [getBodyLength]. *)
Theorem getData_is_header_then_body m :
  getData m = take 4 (data m) ++ getBody m
  ∧ (Message_wf m →
     length (getData m) = (4 + N.to_nat (getBodyLength m))%nat
     ∧ length (getBody m) = N.to_nat (getBodyLength m)).
Proof.
  unfold getData, getBody, getBodyLength, header. split.
  - rewrite N2Nat.inj_add. change (N.to_nat 4) with 4%nat.
    by rewrite take_take_drop.
  - intros [Hlen Hb]. unfold maxBytes in Hb.
    rewrite !length_take, length_drop. change (N.to_nat 4) with 4%nat. lia.
Qed.

Lemma getData_is_header_then_body_witness :
  let m := {| data := buffer_of (str "   5hello"); bodyLength_ := 5 |} in
  length (getData m) = (4 + N.to_nat (getBodyLength m))%nat
  ∧ length (getBody m) = N.to_nat (getBodyLength m).
Proof.
  cbv zeta.
  apply (getData_is_header_then_body
           {| data := buffer_of (str "   5hello"); bodyLength_ := 5 |}).
  split; [reflexivity | apply N.leb_le; reflexivity].
Defined.

Lemma zero_padded_table : forallb zero_padded_check (seq 0 513) = true.
Proof. vm_compute. reflexivity. Qed.

Lemma zero_padded_checked (n : nat) :
  (n ≤ 512)%nat →
  length (zero_padded (N.of_nat n)) = 4%nat
  ∧ atoi (zero_padded (N.of_nat n) ++ [NUL]) = Z.of_nat n.
Proof.
  intros Hn. pose proof zero_padded_table as Ht.
  rewrite forallb_forall in Ht.
  assert (zero_padded_check n = true) as Hc by (apply Ht, in_seq; lia).
  unfold zero_padded_check in Hc.
  rewrite !andb_true_iff, !bool_decide_eq_true in Hc. tauto.
Qed.

Lemma decodeHeader_of_valid (h tl : list ascii) (k : N) (n : nat) :
  length h = 4%nat → atoi (h ++ [NUL]) = Z.of_nat n → (n ≤ 512)%nat →
  decodeHeader {| data := h ++ tl; bodyLength_ := k |}
  = (true, {| data := h ++ tl; bodyLength_ := N.of_nat n |}).
Proof.
  intros Hh Hv Hn. unfold decodeHeader. cbn [data].
  change (N.to_nat header) with 4%nat.
  rewrite (take_app_length' _ _ 4), Hv by done.
  change (Z.of_N maxBytes) with 512%Z.
  destruct (Z.ltb_spec (Z.of_nat n) 0); [lia|].
  destruct (Z.ltb_spec 512 (Z.of_nat n)); [lia|].
  simpl. do 2 f_equal. lia.
Qed.

(** The read cycle on a stream that starts with any accepted header for the
    body that follows. *)
Lemma read_message_valid (h b rest : list ascii) rx :
  length h = 4%nat → atoi (h ++ [NUL]) = Z.of_nat (length b) →
  (length b ≤ 512)%nat →
  ∃ tl, Session.read_message (h ++ b ++ rest) rx
        = Some ({| data := h ++ b ++ tl; bodyLength_ := N.of_nat (length b) |},
                rest).
Proof.
  intros Hh Hv Hb. unfold Session.read_message.
  change (N.to_nat header) with 4%nat.
  destruct (Nat.ltb_spec (length (h ++ b ++ rest)) 4) as [Hlt|_];
    [rewrite length_app in Hlt; lia|].
  rewrite memcpy_front, (take_app_length' _ _ 4) by done.
  cbn [data bodyLength_]. rewrite (decodeHeader_of_valid _ _ _ (length b)) by done.
  cbn [data bodyLength_]. unfold getBodyLength. cbn [bodyLength_].
  rewrite Nat2N.id, (drop_app_length' _ _ 4) by done.
  destruct (Nat.ltb_spec (length (b ++ rest)) (length b)) as [Hlt|_];
    [rewrite length_app in Hlt; lia|].
  rewrite memcpy_after by done.
  rewrite take_app_length, drop_app_length. eauto.
Qed.

(** X3. A frame whose header carries the body length with leading zeros,
    the form the protocol comment of the header file uses ("0005Hello"), is
    accepted like the space-padded one the encoder writes: for every body of
    at most 512 bytes the read cycle returns that body and leaves the rest
    of the stream. *)
Theorem zero_padded_frame_accepted b rest rx :
  (length b ≤ 512)%nat →
  ∃ m, Session.read_message (zero_padded (N.of_nat (length b)) ++ b ++ rest) rx
       = Some (m, rest)
     ∧ getBody m = b
     ∧ getBodyLength m = N.of_nat (length b).
Proof.
  intros Hb. destruct (zero_padded_checked _ Hb) as [Hl Hv].
  destruct (read_message_valid _ b rest rx Hl Hv Hb) as [tl ->].
  eexists. split; [done|]. split; [by apply getBody_layout|done].
Qed.

Lemma zero_padded_frame_accepted_witness :
  ∃ m, Session.read_message (str "0005Hello" ++ str "  13Hello, world!")
         (Message_default (buffer_of []))
       = Some (m, str "  13Hello, world!")
     ∧ getBody m = str "Hello"
     ∧ getBodyLength m = 5.
Proof.
  apply (zero_padded_frame_accepted (str "Hello") (str "  13Hello, world!")
           (Message_default (buffer_of []))).
  apply Nat.leb_le. reflexivity.
Defined.

(** X4. One turn of the read cycle takes exactly one frame off the stream
    and never writes outside the array: whenever it succeeds, on any stream
    and any 516-byte receiving array, the stream is the returned message's
    frame followed by the returned rest; the message is well formed (516
    bytes, length at most 512); the bytes of the array after the frame are
    the old ones; and what [async_write] would send for the message is that
    same frame, byte for byte. *)
Theorem read_message_takes_one_frame stream rx m rest :
  length (data rx) = 516%nat →
  Session.read_message stream rx = Some (m, rest) →
  stream = getData m ++ rest
  ∧ Message_wf m
  ∧ Session.write_buffer m = getData m
  ∧ length (getData m) = (4 + N.to_nat (getBodyLength m))%nat
  ∧ drop (length (getData m)) (data m) = drop (length (getData m)) (data rx).
Proof.
  intros Hlen Hread. unfold Session.read_message in Hread.
  change (N.to_nat header) with 4%nat in Hread.
  destruct (Nat.ltb_spec (length stream) 4) as [|Hs]; [done|].
  rewrite memcpy_front in Hread.
  set (m1 := {| data := take 4 stream ++ drop 4 (data rx);
                bodyLength_ := bodyLength_ rx |}) in Hread.
  destruct (decodeHeader_bound m1) as [Hb Hd].
  destruct (decodeHeader m1) as [ok m2]. cbn [snd] in Hb, Hd.
  destruct ok; [|done]. unfold getBodyLength in Hread.
  set (n := N.to_nat (bodyLength_ m2)) in *.
  assert (n ≤ 512)%nat as Hn by (unfold n, maxBytes in *; lia).
  destruct (Nat.ltb_spec (length (drop 4 stream)) n) as [|Hr]; [done|].
  rewrite length_drop in Hr.
  injection Hread as <- <-. rewrite Hd. unfold m1. cbn [data].
  rewrite memcpy_after by (rewrite length_take; lia).
  assert (getData {| data := take 4 stream ++ take n (drop 4 stream)
                               ++ drop n (drop 4 (data rx));
                     bodyLength_ := bodyLength_ m2 |}
          = take 4 stream ++ take n (drop 4 stream)) as Hg.
  { unfold getData. cbn [data bodyLength_].
    rewrite app_assoc. apply take_app_length'.
    rewrite length_app, !length_take, length_drop. unfold header, n. lia. }
  assert (length (take 4 stream ++ take n (drop 4 stream)) = (4 + n)%nat) as Hgl
    by (rewrite length_app, !length_take, length_drop; lia).
  split_and!.
  - rewrite Hg, <- app_assoc, take_drop. by rewrite take_drop.
  - split; [|done]. cbn [data].
    rewrite !length_app, !length_take, !length_drop. lia.
  - done.
  - by rewrite Hg, Hgl.
  - rewrite Hg, Hgl. cbn [data].
    rewrite app_assoc, drop_app_length' by done.
    by rewrite drop_drop.
Qed.

Lemma read_message_takes_one_frame_witness :
  let rx := Message_default (buffer_of (str "   9old bytes")) in
  let m := {| data := buffer_of (str "   2hid bytes"); bodyLength_ := 2 |} in
  str "   2hi   1x" = getData m ++ str "   1x"
  ∧ Message_wf m
  ∧ Session.write_buffer m = getData m
  ∧ length (getData m) = (4 + N.to_nat (getBodyLength m))%nat
  ∧ drop (length (getData m)) (data m) = drop (length (getData m)) (data rx).
Proof.
  cbv zeta.
  apply (read_message_takes_one_frame (str "   2hi   1x")
           (Message_default (buffer_of (str "   9old bytes")))
           {| data := buffer_of (str "   2hid bytes"); bodyLength_ := 2 |}
           (str "   1x")).
  - reflexivity.
  - vm_compute. reflexivity.
Defined.

End MessageInvariant.

(** * Frames on a stream: the read cycles and the client's sender *)

Section Streams.
Import ReadCycle ChatClient.

Implicit Types (b h rest stream tail : list ascii) (m raw rx : Message)
  (bs lines : list (list ascii)).

Lemma read_message_shrinks stream rx m rest :
  Session.read_message stream rx = Some (m, rest) →
  (length rest + 4 ≤ length stream)%nat.
Proof.
  unfold Session.read_message. change (N.to_nat header) with 4%nat.
  destruct (Nat.ltb_spec (length stream) 4) as [|Hs]; [done|].
  destruct (decodeHeader _) as [[] m2]; [|done].
  destruct (_ <? _)%nat; [done|]. intros [= _ <-].
  rewrite !length_drop. lia.
Qed.

(** Fuel above the stream length is enough: more makes no difference. *)
Lemma read_loop_fuel (f1 : nat) : ∀ (f2 : nat) stream rx,
  (length stream < f1)%nat → (length stream < f2)%nat →
  read_loop f1 stream rx = read_loop f2 stream rx.
Proof.
  induction f1 as [|f1 IH]; intros f2 stream rx H1 H2; [lia|].
  destruct f2 as [|f2]; [lia|]. cbn [read_loop].
  destruct (Session.read_message stream rx) as [[m rest]|] eqn:Hr; [|done].
  apply read_message_shrinks in Hr. f_equal. apply IH; lia.
Qed.

Lemma read_loop_S (fuel : nat) stream rx :
  read_loop (S fuel) stream rx
  = match Session.read_message stream rx with
    | Some (msg, rest) => msg :: read_loop fuel rest msg
    | None => []
    end.
Proof. reflexivity. Qed.

Lemma read_all_step stream rx m rest :
  Session.read_message stream rx = Some (m, rest) →
  read_all stream rx = m :: read_all rest m.
Proof.
  intros Hr. unfold read_all. rewrite read_loop_S, Hr. f_equal.
  apply read_message_shrinks in Hr. apply read_loop_fuel; lia.
Qed.

Lemma read_all_stop stream rx :
  Session.read_message stream rx = None → read_all stream rx = [].
Proof. intros Hr. unfold read_all. cbn [read_loop]. by rewrite Hr. Qed.

Lemma sendMessage_frame raw b :
  (length b ≤ 512)%nat →
  sendMessage raw b = sprintf_4d (to_int (N.of_nat (length b))) ++ b.
Proof.
  intros Hb. unfold sendMessage. rewrite Message_of_string_layout by done.
  apply (getData_layout _ b). by apply header_length.
Qed.

Lemma sendMessage_oversize raw b :
  (512 < length b)%nat → sendMessage raw b = [].
Proof.
  intros Hb. unfold sendMessage. by rewrite Message_of_string_throws.
Qed.

Lemma read_all_frames_tail raw bs tail : ∀ rx,
  Forall (λ b, (length b ≤ 512)%nat) bs →
  ∃ rx', getBody <$> read_all (concat (sendMessage raw <$> bs) ++ tail) rx
         = bs ++ (getBody <$> read_all tail rx').
Proof.
  induction bs as [|b bs IH]; intros rx Hbs; [by exists rx|].
  apply Forall_cons in Hbs as [Hb Hbs].
  rewrite fmap_cons. cbn [concat]. rewrite sendMessage_frame by done.
  rewrite <- !app_assoc.
  destruct (read_message_layout _ b (concat (sendMessage raw <$> bs) ++ tail)
              rx _ eq_refl Hb eq_refl) as [tl Hr].
  rewrite (read_all_step _ _ _ _ Hr), fmap_cons.
  rewrite getBody_layout by (by apply header_length).
  destruct (IH {| data := sprintf_4d (to_int (N.of_nat (length b))) ++ b ++ tl;
                  bodyLength_ := N.of_nat (length b) |} Hbs) as [rx' ->].
  by exists rx'.
Qed.

Lemma read_cycle_splits_frames_aux raw rx bs :
  Forall (λ b, (length b ≤ 512)%nat) bs →
  getBody <$> read_all (concat (sendMessage raw <$> bs)) rx = bs.
Proof.
  intros Hbs. destruct (read_all_frames_tail raw bs [] rx Hbs) as [rx' Hrx'].
  rewrite app_nil_r in Hrx'. rewrite Hrx'.
  rewrite read_all_stop by done. by rewrite app_nil_r.
Qed.

(** X5. Message boundaries survive the stream: when a client sends the
    texts [bs] (each at most 512 bytes, any bytes, empty ones included) one
    after the other, the server session's read cycle on the concatenated
    bytes hands [write] exactly one message per text, with those texts as
    bodies, in order; it then continues on whatever follows. With nothing
    following, it stops after the last one. *)
Theorem read_cycle_splits_frames raw rx bs tail :
  Forall (λ b, (length b ≤ 512)%nat) bs →
  (∃ rx', getBody <$> read_all (concat (sendMessage raw <$> bs) ++ tail) rx
          = bs ++ (getBody <$> read_all tail rx'))
  ∧ getBody <$> read_all (concat (sendMessage raw <$> bs)) rx = bs.
Proof.
  intros Hbs. split; [by apply read_all_frames_tail|].
  by apply read_cycle_splits_frames_aux.
Qed.

Lemma read_cycle_splits_frames_witness :
  getBody <$> read_all (concat (sendMessage (Message_default (buffer_of []))
                                  <$> [str "hi"; []; str "  13 looks like a header"]))
                (Message_default (buffer_of []))
  = [str "hi"; []; str "  13 looks like a header"].
Proof.
  apply (read_cycle_splits_frames (Message_default (buffer_of []))
           (Message_default (buffer_of []))
           [str "hi"; []; str "  13 looks like a header"] []).
  repeat constructor; apply Nat.leb_le; reflexivity.
Defined.

Lemma run_input_until_stop socket raw lines stop more : ∀ writes,
  Forall (λ l, l ≠ str "quit" ∧ l ≠ str "exit") lines →
  stop = str "quit" ∨ stop = str "exit" →
  run_input socket writes raw (lines ++ stop :: more)
  = run_input socket writes raw lines.
Proof.
  intros writes Hlines Hstop. revert writes.
  induction Hlines as [|l lines [Hq He] _ IH]; intros writes.
  - cbn [app run_input]. by rewrite bool_decide_eq_true_2.
  - cbn [app run_input]. rewrite bool_decide_eq_false_2 by tauto.
    destruct (bool_decide (l = [])); [done|].
    destruct (sendMessage_on socket writes raw l) as [bytes writes'].
    by rewrite IH.
Qed.

Lemma sendMessage_on_success socket writes raw l :
  socket writes = WriteAll →
  (sendMessage_on socket writes raw l).1 = sendMessage raw l.
Proof.
  intros Hw. unfold sendMessage_on, sendMessage.
  destruct (Message_of_string raw l); [|done]. cbn. by rewrite Hw.
Qed.

Lemma run_input_sendable socket raw lines : ∀ writes,
  (∀ n, socket n = WriteAll) →
  Forall (λ l, l ≠ str "quit" ∧ l ≠ str "exit") lines →
  run_input socket writes raw lines
  = concat (sendMessage raw
              <$> filter (λ l, l ≠ [] ∧ (length l ≤ 512)%nat) lines).
Proof.
  intros writes Hsock Hlines. revert writes.
  induction Hlines as [|l lines [Hq He] _ IH]; intros writes; [done|].
  cbn [run_input]. rewrite bool_decide_eq_false_2 by tauto.
  rewrite filter_cons.
  destruct (decide (l = [])) as [->|Hne].
  - rewrite bool_decide_eq_true_2 by done.
    rewrite decide_False by tauto. apply IH.
  - rewrite bool_decide_eq_false_2 by done.
    pose proof (sendMessage_on_success socket writes raw l (Hsock writes)) as Hs.
    destruct (sendMessage_on socket writes raw l) as [bytes writes'].
    cbn [fst] in Hs. subst bytes. rewrite IH.
    destruct (decide (length l ≤ 512)%nat) as [Hle|Hgt].
    + by rewrite decide_True by done.
    + rewrite decide_False by tauto. by rewrite sendMessage_oversize by lia.
Qed.

(** X6. What the user types is what the server broadcasts, as long as
    the client's socket takes every write: if no call of
    [boost::asio::write] throws, then for input lines up to the first
    "quit" or "exit" (or to the end of input), the server session's read
    cycle on the bytes the client puts on the wire hands [write] exactly the
    lines that are non-empty and at most 512 bytes, in order, as message
    bodies. Empty lines and oversize lines put nothing on the wire, and
    nothing typed after "quit" or "exit" is sent. *)
Theorem typed_lines_reach_server socket writes raw rx lines stop more :
  (∀ n, socket n = WriteAll) →
  Forall (λ l, l ≠ str "quit" ∧ l ≠ str "exit") lines →
  stop = str "quit" ∨ stop = str "exit" →
  run_input socket writes raw (lines ++ stop :: more)
  = run_input socket writes raw lines
  ∧ getBody <$> read_all (run_input socket writes raw lines) rx
    = filter (λ l, l ≠ [] ∧ (length l ≤ 512)%nat) lines
  ∧ getBody <$> read_all (run_input socket writes raw (lines ++ stop :: more)) rx
    = filter (λ l, l ≠ [] ∧ (length l ≤ 512)%nat) lines.
Proof.
  intros Hsock Hlines Hstop.
  assert (getBody <$> read_all (run_input socket writes raw lines) rx
          = filter (λ l, l ≠ [] ∧ (length l ≤ 512)%nat) lines) as Hread.
  { rewrite run_input_sendable by done.
    apply read_cycle_splits_frames_aux.
    apply Forall_forall. intros l [[_ Hl] _]%list_elem_of_filter. done. }
  split_and!; [by apply run_input_until_stop|done|].
  by rewrite run_input_until_stop.
Qed.

Lemma typed_lines_reach_server_witness :
  let raw := Message_default (buffer_of []) in
  let lines := [str "hello"; []; replicate 600 (ascii_of_N 120); str "bye"] in
  getBody <$> read_all (run_input (λ _, WriteAll) 0 raw
                          (lines ++ str "quit" :: [str "too late"])) raw
  = filter (λ l, l ≠ [] ∧ (length l ≤ 512)%nat) lines.
Proof.
  cbv zeta.
  apply (typed_lines_reach_server (λ _, WriteAll) 0
           (Message_default (buffer_of []))
           (Message_default (buffer_of []))
           [str "hello"; []; replicate 600 (ascii_of_N 120); str "bye"]
           (str "quit") [str "too late"]).
  - reflexivity.
  - repeat constructor; discriminate.
  - left. reflexivity.
Defined.

(** A write that throws part-way leaves a partial frame on the wire, and
    the loop goes on: here the server then reads a bogus empty message and
    loses the next line. *)
Example failed_write_misframes :
  let raw := Message_default (buffer_of []) in
  let socket := λ n : nat, match n with O => WriteThrows 2 | _ => WriteAll end in
  run_input socket 0 raw [str "hello"; str "bye"] = str "     3bye"
  ∧ getBody <$> read_all (run_input socket 0 raw [str "hello"; str "bye"]) raw
    = [[]].
Proof. split; vm_compute; reflexivity. Qed.

(** [decodeHeader] looks at the first four bytes of the array only. *)
Lemma decodeHeader_prefix h (X : list ascii) (k : N) :
  length h = 4%nat →
  decodeHeader {| data := h ++ X; bodyLength_ := k |}
  = ((decodeHeader {| data := h; bodyLength_ := 0 |}).1,
     {| data := h ++ X;
        bodyLength_ := bodyLength_ (decodeHeader {| data := h; bodyLength_ := 0 |}).2 |}).
Proof.
  intros Hh. unfold decodeHeader. cbn [data].
  change (N.to_nat header) with 4%nat.
  rewrite (take_app_length' _ _ 4), (take_ge h 4) by lia.
  by destruct (_ || _)%bool.
Qed.

(** One turn of the client's receive cycle, in terms of the stream alone. *)
Lemma receive_loop_turn (fuel : nat) stream rm :
  (4 ≤ length stream)%nat →
  let hd := decodeHeader {| data := take 4 stream; bodyLength_ := 0 |} in
  let n := N.to_nat (bodyLength_ hd.2) in
  let rest := drop 4 stream in
  ∃ rm', receive_loop (S fuel) stream rm
         = if hd.1 then
             if (length rest <? n)%nat then []
             else take n rest :: receive_loop fuel (drop n rest) rm'
           else receive_loop fuel rest rm'.
Proof.
  intros Hs. cbv zeta. cbn [receive_loop]. change (N.to_nat header) with 4%nat.
  destruct (Nat.ltb_spec (length stream) 4); [lia|].
  rewrite memcpy_front, decodeHeader_prefix by (rewrite length_take; lia).
  destruct (decodeHeader {| data := take 4 stream; bodyLength_ := 0 |})
    as [ok hm]. cbn [fst snd].
  destruct ok; [|eauto].
  unfold getBodyLength. cbn [bodyLength_ data].
  destruct (Nat.ltb_spec (length (drop 4 stream)) (N.to_nat (bodyLength_ hm)))
    as [|Hr]; [by exists rm|].
  eexists. f_equal. unfold getBody. cbn [data bodyLength_].
  rewrite memcpy_after by (rewrite length_take; lia).
  change (N.to_nat header) with 4%nat.
  rewrite drop_app_length' by (rewrite length_take; lia).
  apply take_app_length'. rewrite length_take. lia.
Qed.

(** The bodies printed depend on the stream only, not on what the
    receiving object held, and fuel above the stream length is enough. *)
Lemma receive_loop_stream_only (f1 : nat) : ∀ (f2 : nat) stream rm1 rm2,
  (length stream < f1)%nat → (length stream < f2)%nat →
  receive_loop f1 stream rm1 = receive_loop f2 stream rm2.
Proof.
  induction f1 as [|f1 IH]; intros f2 stream rm1 rm2 H1 H2; [lia|].
  destruct f2 as [|f2]; [lia|].
  destruct (decide (4 ≤ length stream)%nat) as [Hs|Hs].
  - destruct (receive_loop_turn f1 stream rm1 Hs) as [rm1' ->].
    destruct (receive_loop_turn f2 stream rm2 Hs) as [rm2' ->].
    destruct (decodeHeader _) as [[] hm]; cbn [fst snd].
    + destruct (Nat.ltb_spec (length (drop 4 stream)) (N.to_nat (bodyLength_ hm)));
        [done|].
      f_equal. apply IH; rewrite !length_drop; lia.
    + apply IH; rewrite !length_drop; lia.
  - cbn [receive_loop]. change (N.to_nat header) with 4%nat.
    destruct (Nat.ltb_spec (length stream) 4); [done|lia].
Qed.

Lemma receive_all_frame h b rest rm :
  length h = 4%nat → atoi (h ++ [NUL]) = Z.of_nat (length b) →
  (length b ≤ 512)%nat →
  receive_all (h ++ b ++ rest) rm = b :: receive_all rest rm.
Proof.
  intros Hh Hv Hb. unfold receive_all.
  destruct (receive_loop_turn (length (h ++ b ++ rest)) (h ++ b ++ rest) rm)
    as [rm' ->]; [rewrite length_app; lia|].
  rewrite (take_app_length' _ _ 4), (drop_app_length' _ _ 4) by done.
  pose proof (decodeHeader_of_valid h [] 0 (length b) Hh Hv Hb) as Hd.
  rewrite app_nil_r in Hd. rewrite Hd. cbn [fst snd bodyLength_].
  rewrite Nat2N.id.
  destruct (Nat.ltb_spec (length (b ++ rest)) (length b)) as [Hlt|_];
    [rewrite length_app in Hlt; lia|].
  rewrite take_app_length, drop_app_length. f_equal.
  apply receive_loop_stream_only; rewrite ?length_app; lia.
Qed.

Lemma receive_all_rejected h rest rm :
  length h = 4%nat → (atoi (h ++ [NUL]) < 0 ∨ 512 < atoi (h ++ [NUL]))%Z →
  receive_all (h ++ rest) rm = receive_all rest rm.
Proof.
  intros Hh Hv. unfold receive_all.
  destruct (receive_loop_turn (length (h ++ rest)) (h ++ rest) rm)
    as [rm' ->]; [rewrite length_app; lia|].
  rewrite (take_app_length' _ _ 4), (drop_app_length' _ _ 4) by done.
  unfold decodeHeader. cbn [data]. change (N.to_nat header) with 4%nat.
  rewrite (take_ge h 4) by lia. change (Z.of_N maxBytes) with 512%Z.
  destruct (Z.ltb_spec (atoi (h ++ [NUL])) 0);
    destruct (Z.ltb_spec 512 (atoi (h ++ [NUL]))); try lia;
    cbn [orb fst]; apply receive_loop_stream_only; rewrite ?length_app; lia.
Qed.

(** X7. The client's receive cycle prints what was sent: on the
    concatenated frames of the texts [bs] (each at most 512 bytes) followed
    by any bytes, it prints exactly [bs], in order, and then whatever the
    following bytes give. The output is a function of the stream alone:
    the previous contents of the reused receive object never show. *)
Theorem receive_cycle_prints_bodies raw rm rm' bs tail :
  Forall (λ b, (length b ≤ 512)%nat) bs →
  receive_all (concat (sendMessage raw <$> bs) ++ tail) rm
  = bs ++ receive_all tail rm'
  ∧ receive_all (concat (sendMessage raw <$> bs)) rm = bs.
Proof.
  intros Hbs.
  assert (∀ tl, receive_all (concat (sendMessage raw <$> bs) ++ tl) rm
                = bs ++ receive_all tl rm') as Hgen.
  { intros tl. induction Hbs as [|b bs Hb _ IH].
    - change (receive_all tl rm = receive_all tl rm'). unfold receive_all.
      apply receive_loop_stream_only; lia.
    - rewrite fmap_cons. cbn [concat]. rewrite sendMessage_frame by done.
      rewrite <- !app_assoc.
      rewrite receive_all_frame; [|by apply header_length|by apply header_atoi|done].
      by rewrite IH. }
  split; [apply Hgen|].
  specialize (Hgen []). rewrite app_nil_r in Hgen. rewrite Hgen.
  by rewrite app_nil_r.
Qed.

Lemma receive_cycle_prints_bodies_witness :
  receive_all (concat (sendMessage (Message_default (buffer_of []))
                         <$> [str "hi"; str "yo"]) ++ str "   1")
    {| data := buffer_of (str "   9old bytes"); bodyLength_ := 9 |}
  = [str "hi"; str "yo"]
    ++ receive_all (str "   1") (Message_default (buffer_of [])).
Proof.
  apply (receive_cycle_prints_bodies (Message_default (buffer_of []))
           {| data := buffer_of (str "   9old bytes"); bodyLength_ := 9 |}
           (Message_default (buffer_of []))
           [str "hi"; str "yo"] (str "   1")).
  repeat constructor; apply Nat.leb_le; reflexivity.
Defined.

(** X8. A header that [decodeHeader] rejects (four bytes whose [atoi]
    value is negative or above 512) ends the server session's read cycle:
    nothing that follows it on the stream is handed to [write]. The client's
    receive cycle instead drops those four bytes and goes on with the bytes
    after them. *)
Theorem rejected_header_server_stops_client_skips h stream rx rm :
  length h = 4%nat →
  (atoi (h ++ [NUL]) < 0 ∨ 512 < atoi (h ++ [NUL]))%Z →
  read_all (h ++ stream) rx = []
  ∧ receive_all (h ++ stream) rm = receive_all stream rm.
Proof.
  intros Hh Hv. split; [|by apply receive_all_rejected].
  apply read_all_stop. unfold Session.read_message.
  change (N.to_nat header) with 4%nat.
  destruct (Nat.ltb_spec (length (h ++ stream)) 4) as [|_]; [done|].
  rewrite memcpy_front, (take_app_length' _ _ 4) by done.
  rewrite decodeHeader_prefix by done.
  unfold decodeHeader. cbn [data]. change (N.to_nat header) with 4%nat.
  rewrite (take_ge h 4) by lia. change (Z.of_N maxBytes) with 512%Z.
  destruct (Z.ltb_spec (atoi (h ++ [NUL])) 0);
    destruct (Z.ltb_spec 512 (atoi (h ++ [NUL]))); try lia; done.
Qed.

Lemma rejected_header_server_stops_client_skips_witness :
  let rx := Message_default (buffer_of []) in
  read_all (str "9999" ++ str "   2hi") rx = []
  ∧ receive_all (str "9999" ++ str "   2hi") rx = receive_all (str "   2hi") rx.
Proof.
  cbv zeta.
  apply (rejected_header_server_stops_client_skips (str "9999") (str "   2hi")).
  - reflexivity.
  - right. reflexivity.
Defined.

End Streams.

(** * Further properties of the room *)

Section RoomMembership.
Import Room.

Implicit Types (r : Room) (p q sender : N) (msg : Message)
  (qs : list request) (bs : list (N * Message)).

Lemma Room_eq r1 r2 :
  participants r1 = participants r2 → MessageQueue r1 = MessageQueue r2 →
  r1 = r2.
Proof. destruct r1, r2. cbn. by intros -> ->. Qed.

(** X9. [leave] is idempotent and harmless: leaving twice is leaving
    once; leaving without being a member changes nothing; leaving right
    after joining as a new member restores the room; and in general it
    removes that participant only and never touches the history. *)
Theorem leave_is_idempotent r p :
  leave p (leave p r) = leave p r
  ∧ (p ∉ participants r → leave p r = r ∧ leave p (join p r).1 = r)
  ∧ (∀ q, q ∈ participants (leave p r) ↔ q ∈ participants r ∧ q ≠ p)
  ∧ MessageQueue (leave p r) = MessageQueue r.
Proof.
  split_and!.
  - apply Room_eq; [cbn; set_solver|done].
  - intros Hp. split; apply Room_eq; cbn; try done; set_solver.
  - intros q. cbn. set_solver.
  - done.
Qed.

Lemma leave_is_idempotent_witness :
  let r := {| participants := {[1; 2]}; MessageQueue := [numbered 0] |} in
  leave 7 r = r ∧ leave 7 (join 7 r).1 = r.
Proof.
  cbv zeta.
  destruct (leave_is_idempotent
              {| participants := {[1; 2]}; MessageQueue := [numbered 0] |} 7)
    as (_ & H & _).
  apply H. vm_compute. discriminate.
Defined.

(** What one participant is handed by a run of broadcasts: the messages of
    the others if it is a member, nothing if it is not. *)
Lemma received_by_broadcast_all bs : ∀ r q,
  received_by q (exec (broadcast_all bs) r).2
  = if decide (q ∈ participants r) then (filter (λ b, b.1 ≠ q) bs).*2 else [].
Proof.
  induction bs as [|[sender msg] bs IH]; intros r q.
  - by destruct (decide _).
  - rewrite broadcast_all_cons.
    destruct (exec_cons (Broadcast sender msg) (broadcast_all bs) r) as [_ ->].
    rewrite received_by_app. cbn [serve fst snd].
    rewrite (IH (deliver sender msg r).1 q).
    change (participants (deliver sender msg r).1) with (participants r).
    rewrite filter_cons. cbn [fst].
    destruct (decide (q ∈ participants r)) as [Hq|Hq].
    + destruct (decide (sender ≠ q)) as [Hne|Heq].
      * by rewrite received_by_deliver_member.
      * apply dec_stable in Heq as ->.
        by rewrite received_by_deliver_sender.
    + by rewrite received_by_deliver_outsider.
Qed.

(** X10. After [leave(p)], no broadcast calls [p->deliver] any more,
    while every remaining member is still handed each message that another
    participant broadcasts, in order. The room does not check that a sender
    is a member: messages broadcast by [p] itself after it left reach the
    members like any other. *)
Theorem departed_participant_gets_nothing r p bs :
  received_by p (exec (Leave p :: broadcast_all bs) r).2 = []
  ∧ (∀ q, q ∈ participants r → q ≠ p →
       received_by q (exec (Leave p :: broadcast_all bs) r).2
       = (filter (λ b, b.1 ≠ q) bs).*2)
  ∧ broadcasts (Leave p :: broadcast_all bs) = bs.*2.
Proof.
  destruct (exec_cons (Leave p) (broadcast_all bs) r) as [_ Hc].
  cbn [serve fst snd app] in Hc. split_and!.
  - rewrite Hc, received_by_broadcast_all.
    rewrite decide_False; [done|]. cbn. set_solver.
  - intros q Hq Hne. rewrite Hc, received_by_broadcast_all.
    rewrite decide_True; [done|]. cbn. set_solver.
  - cbn [broadcasts]. apply broadcasts_broadcast_all.
Qed.

Lemma departed_participant_gets_nothing_witness :
  let r := {| participants := {[1; 2; 3]}; MessageQueue := [] |} in
  let bs := [(1, numbered 0); (2, numbered 1); (3, numbered 2)] in
  received_by 1 (exec (Leave 2 :: broadcast_all bs) r).2
  = (filter (λ b, b.1 ≠ 1) bs).*2.
Proof.
  cbv zeta.
  destruct (departed_participant_gets_nothing
              {| participants := {[1; 2; 3]}; MessageQueue := [] |} 2
              [(1, numbered 0); (2, numbered 1); (3, numbered 2)])
    as (_ & H & _).
  apply H; [vm_compute; reflexivity | discriminate].
Defined.

(** X11. A participant that joins late is replayed the recent past: after
    any sequence of joins, leaves and broadcasts on a fresh room, [join(p)]
    hands [p] exactly the last 50 messages broadcast so far (all of them
    when there are fewer), oldest first, whoever sent them and whoever was
    a member at the time. *)
Theorem late_joiner_gets_last_50 qs p :
  received_by p (join p (exec qs Room_default).1).2
  = drop (length (broadcasts qs) - 50) (broadcasts qs)
  ∧ (length (received_by p (join p (exec qs Room_default).1).2)
     = min 50 (length (broadcasts qs)))%nat.
Proof.
  destruct (exec_MessageQueue qs Room_default) as [_ Hq]; [simpl; lia|].
  rewrite join_calls, received_by_replay, Hq. cbn [Room_default MessageQueue app].
  split; [done|]. unfold window. rewrite length_drop. lia.
Qed.

End RoomMembership.

(** * Further properties of the write chain *)

Section WriteChain.
Import Session.

Implicit Types (s : Session) (msg : Message) (es : list event)
  (D : list Message).

Lemma write_done_pops D s msg (q : list Message) :
  write_chain D s → left_room s = false → outgoingMessages s = msg :: q →
  ∃ s1, step WriteDone s = Some s1
      ∧ outgoingMessages s1 = q
      ∧ left_room s1 = false
      ∧ transmitted s1 = transmitted s ++ write_buffer msg
      ∧ write_chain D s1.
Proof.
  intros Hinv Hl Hq.
  destruct Hinv as [(_ & Heq & [[Hq' _]|(m0 & q0 & Hq' & Hfl)])|(Hl' & _)];
    [congruence| |congruence].
  rewrite Hq in Hq'. injection Hq' as <- <-.
  assert (∃ s1, step WriteDone s = Some s1) as [s1 Hs1]
    by (cbn [step]; rewrite Hfl; eauto).
  pose proof (write_chain_step D WriteDone s s1
                (or_introl (conj Hl (conj Heq (or_intror
                   (ex_intro _ msg (ex_intro _ q (conj Hq Hfl))))))) Hs1) as Hinv1.
  rewrite app_nil_r in Hinv1.
  cbn [step] in Hs1. rewrite Hfl in Hs1. injection Hs1 as <-.
  eexists. split; [cbn [step]; rewrite Hfl; reflexivity|].
  unfold on_write_ok in *.
  cbn [outgoingMessages in_flight transmitted left_room] in *.
  rewrite Hq in *. cbn [tail] in *.
  destruct q as [|m1 q']; cbn; done.
Qed.

Lemma write_chain_drains D (q : list Message) : ∀ s,
  write_chain D s → left_room s = false → outgoingMessages s = q →
  ∃ s', run (replicate (length q) WriteDone) s = Some s'
      ∧ outgoingMessages s' = [] ∧ in_flight s' = []
      ∧ transmitted s' = transmitted s ++ frames q
      ∧ transmitted s' = frames D.
Proof.
  induction q as [|msg q IH]; intros s Hinv Hl Hq.
  - exists s. cbn [length replicate run]. rewrite frames_nil, app_nil_r.
    destruct Hinv as [(_ & Heq & [[_ Hfl]|(m0 & q0 & Hq' & _)])|(Hl' & _)];
      [|congruence..].
    rewrite Hq, frames_nil, app_nil_r in Heq. done.
  - destruct (write_done_pops D s msg q Hinv Hl Hq)
      as (s1 & Hs1 & Hq1 & Hl1 & Ht1 & Hinv1).
    destruct (IH s1 Hinv1 Hl1 Hq1) as (s' & Hrun & ? & ? & Ht & ?).
    exists s'. cbn [length replicate run]. rewrite Hs1.
    split_and!; [done..| |done].
    by rewrite Ht, Ht1, frames_cons, <- app_assoc.
Qed.

(** X12. The write chain drains the queue: in any state a session
    reaches without a failed write, as many write completions as there are
    queued messages are all possible, one after the other, and leave the
    queue empty with no write outstanding; the socket has then sent, after
    what it had sent before, the frame ([getData]: four header bytes, then
    the body) of each queued message in queue order, and in total exactly
    the frames of all messages ever handed to the session, in [deliver]
    order. *)
Theorem write_queue_drains es s :
  run es Session_new = Some s → left_room s = false →
  ∃ s', run (replicate (length (outgoingMessages s)) WriteDone) s = Some s'
      ∧ outgoingMessages s' = [] ∧ in_flight s' = []
      ∧ transmitted s'
        = transmitted s ++ concat (getData <$> outgoingMessages s)
      ∧ transmitted s' = concat (getData <$> delivered es)
      ∧ transmitted s'
        = concat ((λ msg, take 4 (data msg) ++ getBody msg) <$> delivered es).
Proof.
  intros Hrun Hl.
  pose proof (write_chain_run es [] Session_new s write_chain_new Hrun) as Hinv.
  rewrite app_nil_l in Hinv.
  destruct (write_chain_drains _ _ s Hinv Hl eq_refl)
    as (s' & Hr & Hq & Hfl & Ht & HD).
  exists s'. rewrite <- !frames_getData. split_and!; [done..|].
  rewrite HD, frames_getData. f_equal.
  apply list_fmap_ext. intros _ msg _. apply getData_header_body.
Qed.

Lemma write_queue_drains_witness :
  let es := [Deliver (numbered 1); Deliver (numbered 2); WriteDone;
             Deliver (numbered 3)] in
  ∃ s s', run es Session_new = Some s
        ∧ transmitted s = str "   11"
        ∧ run (replicate (length (outgoingMessages s)) WriteDone) s = Some s'
        ∧ outgoingMessages s' = [] ∧ in_flight s' = []
        ∧ transmitted s' = str "   11" ++ str "   12" ++ str "   13".
Proof.
  cbv zeta. eexists.
  destruct (write_queue_drains
              [Deliver (numbered 1); Deliver (numbered 2); WriteDone;
               Deliver (numbered 3)] _ eq_refl eq_refl)
    as (s' & H1 & H2 & H3 & _ & H5 & _).
  exists s'. split; [reflexivity|]. split; [reflexivity|].
  split; [exact H1|]. split; [exact H2|]. split; [exact H3|exact H5].
Defined.

Lemma failed_chain_stays es : ∀ s s',
  left_room s = true → in_flight s = [] → outgoingMessages s ≠ [] →
  run es s = Some s' →
  transmitted s' = transmitted s ∧ in_flight s' = []
  ∧ left_room s' = true
  ∧ outgoingMessages s' = outgoingMessages s ++ delivered es
  ∧ Forall (λ e, ∃ msg, e = Deliver msg) es.
Proof.
  induction es as [|e es IH]; intros s s' Hl Hfl Hq Hrun.
  - injection Hrun as <-. by rewrite app_nil_r.
  - cbn [run] in Hrun. destruct e as [msg| |sent]; cbn [step] in Hrun.
    + rewrite deliver_busy in Hrun by done.
      apply IH in Hrun as (Ht & ? & ? & Hq' & ?);
        [|done|done|cbn; by destruct (outgoingMessages s)].
      cbn [transmitted outgoingMessages] in *.
      split_and!; [done..| |constructor; eauto].
      by rewrite Hq', <- app_assoc.
    + by rewrite Hfl in Hrun.
    + by rewrite Hfl in Hrun.
Qed.

(** X13. A failed write ends transmission for good: once a write has
    failed on a session, in whatever happens to it afterwards no write is
    ever started again and the socket sends not one more byte; messages
    handed to it later only pile up in the queue behind the one whose write
    failed. *)
Theorem failed_write_stops_transmission es s es' s' :
  run es Session_new = Some s → left_room s = true → run es' s = Some s' →
  transmitted s' = transmitted s
  ∧ in_flight s' = []
  ∧ outgoingMessages s' = outgoingMessages s ++ delivered es'
  ∧ outgoingMessages s ≠ []
  ∧ Forall (λ e, ∃ msg, e = Deliver msg) es'.
Proof.
  intros Hrun Hl Hrun'.
  pose proof (write_chain_run es [] Session_new s write_chain_new Hrun) as Hinv.
  destruct Hinv as [(Hl' & _)|(_ & Hfl & Hq & _)]; [congruence|].
  destruct (failed_chain_stays es' s s' Hl Hfl Hq Hrun') as (? & ? & _ & ? & ?).
  done.
Qed.

Lemma failed_write_stops_transmission_witness :
  let es := [Deliver (numbered 1); WriteFailed 2] in
  let es' := [Deliver (numbered 2); Deliver (numbered 3)] in
  ∃ s s', run es Session_new = Some s ∧ run es' s = Some s'
        ∧ transmitted s' = transmitted s
        ∧ in_flight s' = []
        ∧ outgoingMessages s' = outgoingMessages s ++ delivered es'.
Proof.
  cbv zeta. do 2 eexists. split; [reflexivity|]. split; [reflexivity|].
  destruct (failed_write_stops_transmission
              [Deliver (numbered 1); WriteFailed 2] _
              [Deliver (numbered 2); Deliver (numbered 3)] _
              eq_refl eq_refl eq_refl) as (H1 & H2 & H3 & _).
  split; [exact H1|]. split; [exact H2|exact H3].
Defined.

End WriteChain.

(** * The server as a whole *)

Section ServerProperties.
Import ChatServer.

Implicit Types (st : Server) (c : Conn) (p q : N) (msg : Message)
  (calls : list Room.Call) (ss : gmap N Conn) (es : list event)
  (h msgs : list Message) (s : Session.Session).

Lemma deliver_all_snoc msgs msg s :
  deliver_all (msgs ++ [msg]) s = Session.deliver msg (deliver_all msgs s).
Proof. unfold deliver_all. by rewrite foldl_app. Qed.

Lemma deliver_left_room msg s :
  Session.left_room (Session.deliver msg s) = Session.left_room s.
Proof.
  destruct (decide (Session.outgoingMessages s = [])).
  - by rewrite deliver_idle.
  - by rewrite deliver_busy.
Qed.

Lemma deliver_outgoing msg s :
  Session.outgoingMessages (Session.deliver msg s)
  = Session.outgoingMessages s ++ [msg].
Proof.
  destruct (decide (Session.outgoingMessages s = [])) as [Hq|Hq].
  - rewrite deliver_idle by done. by rewrite Hq.
  - by rewrite deliver_busy.
Qed.

Lemma deliver_transmitted msg s :
  Session.transmitted (Session.deliver msg s) = Session.transmitted s.
Proof.
  destruct (decide (Session.outgoingMessages s = [])).
  - by rewrite deliver_idle.
  - by rewrite deliver_busy.
Qed.

Lemma deliver_all_spec msgs : ∀ s,
  Session.left_room (deliver_all msgs s) = Session.left_room s
  ∧ Session.outgoingMessages (deliver_all msgs s)
    = Session.outgoingMessages s ++ msgs
  ∧ Session.transmitted (deliver_all msgs s) = Session.transmitted s
  ∧ (∀ D, write_chain D s → write_chain (D ++ msgs) (deliver_all msgs s)).
Proof.
  induction msgs as [|msg msgs IH] using rev_ind; intros s.
  - cbn. rewrite app_nil_r. split_and!; try done.
    intros D. by rewrite app_nil_r.
  - destruct (IH s) as (Hl & Hq & Ht & Hw). rewrite deliver_all_snoc.
    rewrite deliver_left_room, deliver_outgoing, deliver_transmitted.
    split_and!; [done|by rewrite Hq, app_assoc|done|].
    intros D HD. rewrite app_assoc.
    apply (write_chain_step (D ++ msgs) (Session.Deliver msg)
             (deliver_all msgs s)); [by apply Hw|done].
Qed.

Lemma dispatch_conn_lookup calls : ∀ ss p,
  dispatch calls ss !! p
  = (λ c, {| out := deliver_all (Room.received_by p calls) (out c);
             incomingMessage := incomingMessage c;
             reading := reading c |}) <$> ss !! p.
Proof.
  induction calls as [|[p' msg] calls IH]; intros ss p.
  - cbn. by destruct (ss !! p) as [[]|].
  - unfold dispatch in *. cbn [foldl fst snd]. rewrite IH.
    unfold Room.received_by. rewrite filter_cons. cbn [fst].
    rewrite lookup_alter. destruct (decide (p' = p)) as [->|Hne].
    + by destruct (ss !! p).
    + done.
Qed.

Lemma alter_as_insert (f : Conn → Conn) ss p c :
  ss !! p = Some c → alter f p ss = <[p := f c]> ss.
Proof.
  intros Hc. apply map_eq. intros i.
  rewrite lookup_alter, lookup_insert.
  destruct (decide (p = i)) as [->|]; [by rewrite Hc|done].
Qed.

Lemma active_delivered msgs c :
  active {| out := deliver_all msgs (out c);
            incomingMessage := incomingMessage c;
            reading := reading c |} = active c.
Proof.
  unfold active, read_pending. cbn [out reading].
  by destruct (deliver_all_spec msgs (out c)) as (-> & _).
Qed.

Lemma conn_ok_delivered msgs c :
  conn_ok c →
  conn_ok {| out := deliver_all msgs (out c);
             incomingMessage := incomingMessage c;
             reading := reading c |}.
Proof.
  intros [[D HD] Hwf]. split; [|done]. exists (D ++ msgs). cbn [out].
  by apply deliver_all_spec.
Qed.

Lemma server_inv_update st p c' (r' : Room.Room) :
  server_inv st → conn_ok c' →
  (p ∈ Room.participants r' ↔ active c' = true) →
  (∀ q, q ≠ p → (q ∈ Room.participants r' ↔ q ∈ Room.participants (room st))) →
  (length (Room.MessageQueue r') ≤ 50)%nat →
  server_inv {| room := r'; sessions := <[p := c']> (sessions st) |}.
Proof.
  intros (I1 & I2 & I3) Hok Hp Hq Hlen. split_and!; cbn [room sessions].
  - intros q. destruct (decide (q = p)) as [->|Hne].
    + rewrite lookup_insert_eq, Hp. split; [eauto|]. by intros (? & [= <-] & ?).
    + rewrite lookup_insert_ne by done. rewrite Hq by done. apply I1.
  - intros q c. destruct (decide (q = p)) as [->|Hne].
    + rewrite lookup_insert_eq. by intros [= <-].
    + rewrite lookup_insert_ne by done. apply I2.
  - done.
Qed.

Lemma server_inv_dispatch st calls (r' : Room.Room) :
  server_inv st →
  Room.participants r' = Room.participants (room st) →
  (length (Room.MessageQueue r') ≤ 50)%nat →
  server_inv {| room := r'; sessions := dispatch calls (sessions st) |}.
Proof.
  intros (I1 & I2 & I3) Hp Hlen. split_and!; cbn [room sessions].
  - intros q. rewrite Hp, I1, dispatch_conn_lookup. split.
    + intros (c & -> & Hc). eexists. split; [done|]. by rewrite active_delivered.
    + destruct (sessions st !! q) as [c|]; [|by intros (? & [=] & _)].
      intros (? & [= <-] & Hc). rewrite active_delivered in Hc. eauto.
  - intros q c. rewrite dispatch_conn_lookup.
    destruct (sessions st !! q) as [c0|] eqn:Hq; [|done].
    intros [= <-]. apply conn_ok_delivered. by eapply I2.
  - done.
Qed.

Lemma not_member_inactive st p c :
  server_inv st → sessions st !! p = Some c →
  (p ∈ Room.participants (room st) ↔ active c = true).
Proof.
  intros (I1 & _) Hc. rewrite I1. split; [|eauto].
  intros (c' & Hc' & ?). congruence.
Qed.

Lemma server_inv_start : server_inv Server_start.
Proof.
  split_and!; cbn.
  - intros p. rewrite lookup_empty. split; [set_solver|]. by intros (? & ? & _).
  - intros p c. by rewrite lookup_empty.
  - lia.
Qed.

Lemma header_read_wf (im : Message) (bytes : list ascii) :
  Message_wf im → length bytes = 4%nat →
  Message_wf (decodeHeader {| data := memcpy (data im) 0 bytes 4;
                              bodyLength_ := bodyLength_ im |}).2.
Proof.
  intros [Hlen _] Hb.
  destruct (decodeHeader_bound {| data := memcpy (data im) 0 bytes 4;
                                  bodyLength_ := bodyLength_ im |}) as [Hn Hd].
  split; [|done]. rewrite Hd. cbn [data]. rewrite length_memcpy; lia.
Qed.

Lemma body_read_wf (im : Message) (bytes : list ascii) :
  Message_wf im → length bytes = N.to_nat (getBodyLength im) →
  Message_wf {| data := memcpy (data im) 4 bytes (N.to_nat (getBodyLength im));
                bodyLength_ := bodyLength_ im |}.
Proof.
  intros [Hlen Hn] Hb. unfold getBodyLength, maxBytes in *.
  split; [|done]. cbn [data]. rewrite length_memcpy; lia.
Qed.

Lemma server_inv_accepted st p uninit st' :
  server_inv st → on_accepted p uninit st = Some st' → server_inv st'.
Proof.
  intros Hinv. unfold on_accepted.
  destruct (_ && _) eqn:Hguard; [|done]. intros [= <-].
  apply andb_prop in Hguard as [Hfresh Hlen%bool_decide_eq_true_1].
  assert (p ∉ Room.participants (room st)) as Hp.
  { destruct (sessions st !! p) as [c|] eqn:Hc.
    - unfold referenced in Hfresh.
      rewrite !negb_orb, !andb_true_iff in Hfresh.
      destruct Hfresh as [_ Hm%negb_true_iff%bool_decide_eq_false_1]. done.
    - destruct Hinv as (I1 & _). rewrite I1, Hc. by intros (? & ? & _). }
  set (c0 := {| out := Session.Session_new;
                incomingMessage := Message_default uninit;
                reading := ReadStopped |}).
  unfold start, set_conn. cbn [room sessions Room.join fst snd].
  set (calls := (λ msg, (p, msg)) <$> Room.MessageQueue (room st)).
  assert (server_inv {| room := room st;
                        sessions := dispatch calls (<[p := c0]> (sessions st)) |})
    as Hinv2.
  { assert (server_inv {| room := room st;
                          sessions := <[p := c0]> (sessions st) |}) as Hinv1.
    { apply (server_inv_update st p c0 (room st));
        [done| |done|done|apply Hinv].
      split; [exists []; apply write_chain_new|].
      split; [done|]. cbn. unfold maxBytes. lia. }
    exact (server_inv_dispatch _ calls (room st) Hinv1 eq_refl
             (proj2 (proj2 Hinv))). }
  pose proof (dispatch_conn_lookup calls (<[p := c0]> (sessions st)) p) as Hlk.
  rewrite lookup_insert_eq in Hlk. cbn [fmap option_fmap option_map] in Hlk.
  rewrite (alter_as_insert _ _ _ _ Hlk).
  refine (server_inv_update
           {| room := room st;
              sessions := dispatch calls (<[p := c0]> (sessions st)) |}
           p _ {| Room.participants := {[p]} ∪ Room.participants (room st);
                  Room.MessageQueue := Room.MessageQueue (room st) |}
           Hinv2 _ _ _ (proj2 (proj2 Hinv))).
  - destruct Hinv2 as (_ & I2 & _). specialize (I2 p _ Hlk).
    destruct I2 as [HD Hwf]. split; done.
  - cbn [Room.participants]. split; [|set_solver]. intros _.
    unfold active, read_pending. cbn [out reading].
    change (out c0) with Session.Session_new.
    by destruct (deliver_all_spec (Room.received_by p calls)
                   Session.Session_new) as (-> & _).
  - intros q Hne. cbn [Room.participants room]. set_solver.
Qed.

Lemma server_inv_leave st p c c' :
  server_inv st → sessions st !! p = Some c → conn_ok c' → active c' = false →
  server_inv (leave p (set_conn p c' st)).
Proof.
  intros Hinv Hc Hok Hact. unfold leave, set_conn. cbn [room sessions].
  refine (server_inv_update st p c' (Room.leave p (room st)) Hinv Hok _ _
            (proj2 (proj2 Hinv))).
  - rewrite Hact. cbn. set_solver.
  - intros q Hne. cbn. set_solver.
Qed.

Lemma server_inv_keep st p c c' :
  server_inv st → sessions st !! p = Some c → conn_ok c' →
  active c' = active c →
  server_inv (set_conn p c' st).
Proof.
  intros Hinv Hc Hok Hact. unfold set_conn.
  refine (server_inv_update st p c' (room st) Hinv Hok _ _
            (proj2 (proj2 Hinv))); [|done].
  rewrite Hact. by apply not_member_inactive.
Qed.

Lemma server_inv_header_read st p bytes st' :
  server_inv st → on_header_read p bytes st = Some st' → server_inv st'.
Proof.
  intros Hinv. unfold on_header_read.
  destruct (sessions st !! p) as [c|] eqn:Hc; [|done].
  destruct (reading c) eqn:Hr; try done.
  destruct (bool_decide _) eqn:Hlen; [|done].
  apply bool_decide_eq_true_1 in Hlen. change (N.to_nat header) with 4%nat in *.
  destruct Hinv as (I1 & I2 & I3). destruct (I2 p c Hc) as [HD Hwf].
  pose proof (header_read_wf _ bytes Hwf Hlen) as Hwf'.
  destruct (decodeHeader _) as [ok m2]. cbn [snd] in Hwf'.
  destruct ok; intros [= <-].
  - apply (server_inv_keep st p c); [done|done|by split|].
    unfold active, read_pending. cbn [out reading]. by rewrite Hr.
  - apply (server_inv_leave st p c); [done|done|by split|done].
Qed.

Lemma server_inv_read_failed st p st' :
  server_inv st → on_read_failed p st = Some st' → server_inv st'.
Proof.
  intros Hinv. unfold on_read_failed.
  destruct (sessions st !! p) as [c|] eqn:Hc; [|done].
  destruct (proj1 (proj2 Hinv) p c Hc) as [HD Hwf].
  destruct (reading c); intros [= <-];
    by apply (server_inv_leave st p c).
Qed.

Lemma server_inv_body_read st p bytes st' :
  server_inv st → on_body_read p bytes st = Some st' → server_inv st'.
Proof.
  intros Hinv. unfold on_body_read.
  destruct (sessions st !! p) as [c|] eqn:Hc; [|done].
  destruct (reading c) eqn:Hr; try done.
  destruct (bool_decide _) eqn:Hlen; [|done].
  apply bool_decide_eq_true_1 in Hlen. change (N.to_nat header) with 4%nat.
  intros [= <-].
  destruct (proj1 (proj2 Hinv) p c Hc) as [HD Hwf].
  set (msg := {| data := _; bodyLength_ := _ |}).
  set (c' := {| out := out c; incomingMessage := msg; reading := ReadingHeader |}).
  assert (server_inv (set_conn p c' st)) as Hinv1.
  { apply (server_inv_keep st p c); [done|done| |].
    - split; [done|]. by apply body_read_wf.
    - unfold active, read_pending. cbn [out reading]. by rewrite Hr. }
  refine (server_inv_dispatch (set_conn p c' st)
            (Room.deliver p msg (room st)).2 (Room.deliver p msg (room st)).1
            Hinv1 eq_refl _).
  apply (deliver_window p msg (room st) []). apply Hinv.
Qed.

Lemma step_left_room (e : Session.event) s s' :
  Session.step e s = Some s' →
  Session.left_room s'
  = match e with
    | Session.WriteFailed _ => true
    | _ => Session.left_room s
    end.
Proof.
  destruct e as [msg| |sent]; cbn [Session.step].
  - intros [= <-]. apply deliver_left_room.
  - destruct (Session.in_flight s); [done|]. intros [= <-].
    unfold Session.on_write_ok. cbn. by destruct (tail _).
  - destruct (Session.in_flight s); [done|].
    destruct (_ <? _)%nat; [|done]. by intros [= <-].
Qed.

Lemma server_inv_write (e : Session.event) st p st' :
  (e = Session.WriteDone ∨ ∃ sent, e = Session.WriteFailed sent) →
  server_inv st → on_write e p st = Some st' → server_inv st'.
Proof.
  intros He Hinv. unfold on_write.
  destruct (sessions st !! p) as [c|] eqn:Hc; [|done].
  destruct (Session.step e (out c)) as [o|] eqn:Ho; [|done]. intros [= <-].
  destruct (proj1 (proj2 Hinv) p c Hc) as [[D HD] Hwf].
  pose proof (write_chain_step D e (out c) o HD Ho) as HD'.
  pose proof (step_left_room e (out c) o Ho) as Hl.
  destruct He as [->|[sent ->]].
  - apply (server_inv_keep st p c); [done|done|split; eauto|].
    unfold active, read_pending. cbn [out reading]. by rewrite Hl.
  - apply (server_inv_leave st p c); [done|done|split; eauto|].
    unfold active. cbn [out]. rewrite Hl. apply andb_false_r.
Qed.

Lemma server_inv_step e st st' :
  server_inv st → step e st = Some st' → server_inv st'.
Proof.
  intros Hinv. destruct e; cbn [step].
  - by apply server_inv_accepted.
  - by intros [= <-].
  - by apply server_inv_header_read.
  - by apply server_inv_body_read.
  - by apply server_inv_read_failed.
  - apply server_inv_write; eauto.
  - apply server_inv_write; eauto.
Qed.

Lemma server_inv_run es : ∀ st st',
  server_inv st → run es st = Some st' → server_inv st'.
Proof.
  induction es as [|e es IH]; intros st st' Hinv; cbn [run].
  - by intros [= <-].
  - destruct (step e st) as [st1|] eqn:Hs; [|done].
    apply IH. by eapply server_inv_step.
Qed.

Lemma conn_eta c :
  {| out := out c; incomingMessage := incomingMessage c; reading := reading c |}
  = c.
Proof. by destruct c. Qed.

(** X14. Between any two handlers the server is consistent: after any
    sequence of completions from start-up, the room's members are exactly
    the sessions whose read cycle is pending and none of whose writes has
    failed (so no dead connection stays a member and no live one is
    missing); every session has at most one write outstanding; every
    session's receive object has its 516-byte array and a length within
    bound, so the pending body read fits the array; and the history holds at
    most 50 messages. *)
Theorem server_stays_consistent es st :
  run es Server_start = Some st →
  (∀ p, p ∈ Room.participants (room st)
        ↔ ∃ c, sessions st !! p = Some c
               ∧ reading c ≠ ReadStopped
               ∧ Session.left_room (out c) = false)
  ∧ (∀ p c, sessions st !! p = Some c →
       (length (Session.in_flight (out c)) ≤ 1)%nat
       ∧ length (data (incomingMessage c)) = 516%nat
       ∧ (4 + N.to_nat (getBodyLength (incomingMessage c)) ≤ 516)%nat)
  ∧ (length (Room.MessageQueue (room st)) ≤ 50)%nat.
Proof.
  intros Hrun.
  destruct (server_inv_run es Server_start st server_inv_start Hrun)
    as (I1 & I2 & I3).
  split_and!; [|intros p c Hc|done].
  - intros p. rewrite I1. unfold active, read_pending.
    split; intros (c & Hc & H); exists c; (split; [done|]).
    + apply andb_prop in H as [Hr Hl%negb_true_iff].
      by destruct (reading c).
    + destruct H as [Hr ->]. by destruct (reading c).
  - destruct (I2 p c Hc) as [[D HD] [Hlen Hn]]. split_and!.
    + by eapply write_chain_in_flight.
    + done.
    + unfold getBodyLength, maxBytes in *. lia.
Qed.

Lemma server_stays_consistent_witness :
  let es := [Accepted 1 (buffer_of []); Accepted 2 (buffer_of []);
             HeaderRead 1 (str "   2"); BodyRead 1 (str "hi");
             WriteFailed 2 3] in
  ∃ st, run es Server_start = Some st
      ∧ (∀ p, p ∈ Room.participants (room st)
            ↔ ∃ c, sessions st !! p = Some c
                   ∧ reading c ≠ ReadStopped
                   ∧ Session.left_room (out c) = false)
      ∧ (length (Room.MessageQueue (room st)) ≤ 50)%nat.
Proof.
  cbv zeta. eexists. split; [vm_compute; reflexivity|].
  match goal with
  | |- context [Room.participants (room ?st)] =>
      destruct (server_stays_consistent
                  [Accepted 1 (buffer_of []); Accepted 2 (buffer_of []);
                   HeaderRead 1 (str "   2"); BodyRead 1 (str "hi");
                   WriteFailed 2 3] st) as (H1 & _ & H3)
  end.
  - vm_compute. reflexivity.
  - split; [exact H1|exact H3].
Defined.

Lemma getBody_body_read (im : Message) (bytes : list ascii) :
  Message_wf im → length bytes = N.to_nat (getBodyLength im) →
  getBody {| data := memcpy (data im) 4 bytes (N.to_nat (getBodyLength im));
             bodyLength_ := bodyLength_ im |} = bytes.
Proof.
  intros [Hlen Hn] Hb. unfold getBody, getBodyLength, maxBytes in *.
  cbn [data bodyLength_]. change (N.to_nat header) with 4%nat.
  unfold memcpy. rewrite drop_app_length' by (rewrite length_take; lia).
  rewrite (take_ge bytes) by lia. by rewrite <- Hb, take_app_length.
Qed.

(** What the handler of a completed body read does, in any consistent
    state. *)
Lemma body_read_broadcast st p bytes st' :
  server_inv st → step (BodyRead p bytes) st = Some st' →
  ∃ c msg,
    sessions st !! p = Some c ∧ reading c = ReadingBody
    ∧ getBody msg = bytes
    ∧ getBodyLength msg = getBodyLength (incomingMessage c)
    ∧ Room.MessageQueue (room st') = window (Room.MessageQueue (room st) ++ [msg])
    ∧ Room.participants (room st') = Room.participants (room st)
    ∧ sessions st' !! p
      = Some {| out := out c; incomingMessage := msg; reading := ReadingHeader |}
    ∧ (∀ q cq, q ≠ p → sessions st !! q = Some cq →
         sessions st' !! q
         = Some {| out := (if decide (q ∈ Room.participants (room st))
                           then Session.deliver msg (out cq) else out cq);
                   incomingMessage := incomingMessage cq;
                   reading := reading cq |}).
Proof.
  intros Hinv. cbn [step]. unfold on_body_read.
  destruct (sessions st !! p) as [c|] eqn:Hc; [|done].
  destruct (reading c) eqn:Hr; try done.
  destruct (bool_decide _) eqn:Hlen; [|done].
  apply bool_decide_eq_true_1 in Hlen. change (N.to_nat header) with 4%nat.
  intros [= <-].
  destruct (proj1 (proj2 Hinv) p c Hc) as [_ Hwf].
  set (msg := {| data := _; bodyLength_ := _ |}).
  exists c, msg. unfold write, set_conn.
  cbn [room sessions Room.deliver].
  set (calls := (λ x, (x, msg)) <$> _).
  assert (calls = (Room.deliver p msg (room st)).2) as Hcalls by done.
  split_and!; [done|done|by apply getBody_body_read|done| |done| |].
  - cbn [Room.MessageQueue]. unfold window.
    destruct (Nat.ltb_spec 50 (length (Room.MessageQueue (room st) ++ [msg])))
      as [Hlt|Hle].
    + pose proof (proj2 (proj2 Hinv)) as Hb. rewrite length_app in *.
      cbn [length] in *.
      replace (length (Room.MessageQueue (room st)) + 1 - 50)%nat with 1%nat
        by lia.
      by destruct (Room.MessageQueue (room st) ++ [msg]).
    + by replace (length (Room.MessageQueue (room st) ++ [msg]) - 50)%nat
        with 0%nat by lia.
  - rewrite dispatch_conn_lookup, lookup_insert_eq. cbn [fmap option_fmap option_map].
    rewrite Hcalls, received_by_deliver_sender. done.
  - intros q cq Hne Hq. rewrite dispatch_conn_lookup, lookup_insert_ne, Hq by done.
    cbn [fmap option_fmap option_map]. rewrite Hcalls.
    destruct (decide (q ∈ Room.participants (room st))) as [Hm|Hm].
    + by rewrite received_by_deliver_member.
    + by rewrite received_by_deliver_outsider.
Qed.

(** X15. A completed message is broadcast: when the body read of the
    session at [p] completes, in any state the server can reach, the message
    whose body is the bytes just read is appended to the history (the
    oldest entry dropped beyond 50) and [Session::deliver] runs once on
    every member other than [p]; sessions that are not members, and [p]'s
    own write queue, are left alone; [p] goes back to reading a header.
    Whether [p] itself is still a member makes no difference. *)
Theorem completed_message_is_broadcast es st p bytes st' :
  run es Server_start = Some st → step (BodyRead p bytes) st = Some st' →
  ∃ c msg,
    sessions st !! p = Some c ∧ reading c = ReadingBody
    ∧ getBody msg = bytes
    ∧ getBodyLength msg = getBodyLength (incomingMessage c)
    ∧ Room.MessageQueue (room st')
      = drop (length (Room.MessageQueue (room st) ++ [msg]) - 50)
          (Room.MessageQueue (room st) ++ [msg])
    ∧ Room.participants (room st') = Room.participants (room st)
    ∧ sessions st' !! p
      = Some {| out := out c; incomingMessage := msg; reading := ReadingHeader |}
    ∧ (∀ q cq, q ≠ p → sessions st !! q = Some cq →
         sessions st' !! q
         = Some {| out := (if decide (q ∈ Room.participants (room st))
                           then Session.deliver msg (out cq) else out cq);
                   incomingMessage := incomingMessage cq;
                   reading := reading cq |}).
Proof.
  intros Hrun Hstep.
  apply (body_read_broadcast st p bytes st'); [|done].
  exact (server_inv_run es Server_start st server_inv_start Hrun).
Qed.

Lemma completed_message_is_broadcast_witness :
  let es := [Accepted 1 (buffer_of []); Accepted 2 (buffer_of []);
             HeaderRead 1 (str "   2")] in
  ∃ st st' c msg,
    run es Server_start = Some st
    ∧ step (BodyRead 1 (str "hi")) st = Some st'
    ∧ sessions st !! 1 = Some c
    ∧ getBody msg = str "hi"
    ∧ Room.MessageQueue (room st')
      = drop (length (Room.MessageQueue (room st) ++ [msg]) - 50)
          (Room.MessageQueue (room st) ++ [msg])
    ∧ sessions st' !! 1
      = Some {| out := out c; incomingMessage := msg; reading := ReadingHeader |}.
Proof.
  cbv zeta. do 2 eexists.
  destruct (completed_message_is_broadcast
              [Accepted 1 (buffer_of []); Accepted 2 (buffer_of []);
               HeaderRead 1 (str "   2")] _ 1 (str "hi") _
              ltac:(vm_compute; reflexivity) ltac:(vm_compute; reflexivity))
    as (c & msg & H1 & _ & H3 & _ & H5 & _ & H7 & _).
  exists c, msg.
  split; [vm_compute; reflexivity|]. split; [vm_compute; reflexivity|].
  split; [exact H1|]. split; [exact H3|]. split; [exact H5|exact H7].
Defined.

Lemma deliver_all_new h :
  Session.outgoingMessages (deliver_all h Session.Session_new) = h
  ∧ Session.transmitted (deliver_all h Session.Session_new) = []
  ∧ Session.left_room (deliver_all h Session.Session_new) = false
  ∧ Session.in_flight (deliver_all h Session.Session_new)
    = match h with
      | [] => []
      | msg :: _ => [Session.write_buffer msg]
      end.
Proof.
  destruct (deliver_all_spec h Session.Session_new) as (Hl & Hq & Ht & Hw).
  cbn in Hl, Hq, Ht. split_and!; [done..|].
  destruct (Hw [] write_chain_new)
    as [(_ & _ & [[Hq' ->]|(m0 & q0 & Hq' & ->)])|(? & _)]; [| |congruence].
  - rewrite Hq in Hq'. by subst h.
  - rewrite Hq in Hq'. by subst h.
Qed.

(** X16. A new connection is brought up to date: when an accept
    completes, in any state the server can reach, the new session becomes a
    member, its read cycle starts, and the whole current history is queued
    on it in order, the write of the oldest message already started, nothing
    sent yet. The history and every other session are left as they were. *)
Theorem accepted_session_is_replayed_history es st p uninit st' :
  run es Server_start = Some st → step (Accepted p uninit) st = Some st' →
  ∃ c, sessions st' !! p = Some c
     ∧ reading c = ReadingHeader
     ∧ Session.outgoingMessages (out c) = Room.MessageQueue (room st)
     ∧ Session.in_flight (out c)
       = match Room.MessageQueue (room st) with
         | [] => []
         | msg :: _ => [Session.write_buffer msg]
         end
     ∧ Session.transmitted (out c) = []
     ∧ Room.participants (room st') = {[p]} ∪ Room.participants (room st)
     ∧ (p ∉ Room.participants (room st))
     ∧ Room.MessageQueue (room st') = Room.MessageQueue (room st)
     ∧ (∀ q, q ≠ p → sessions st' !! q = sessions st !! q).
Proof.
  intros Hrun. cbn [step]. unfold on_accepted.
  destruct (_ && _) eqn:Hguard; [|done]. intros [= <-].
  apply andb_prop in Hguard as [Hfresh _].
  pose proof (server_inv_run es Server_start st server_inv_start Hrun) as Hinv.
  assert (p ∉ Room.participants (room st)) as Hp.
  { destruct (sessions st !! p) as [c|] eqn:Hc.
    - unfold referenced in Hfresh.
      rewrite !negb_orb, !andb_true_iff in Hfresh.
      destruct Hfresh as [_ Hm%negb_true_iff%bool_decide_eq_false_1]. done.
    - destruct Hinv as (I1 & _). rewrite I1, Hc. by intros (? & ? & _). }
  unfold start, set_conn. cbn [room sessions Room.join fst snd].
  set (calls := (λ msg, (p, msg)) <$> Room.MessageQueue (room st)).
  destruct (deliver_all_new (Room.MessageQueue (room st))) as (Hq & Ht & _ & Hfl).
  eexists. split_and!.
  - rewrite lookup_alter, decide_True by done.
    rewrite dispatch_conn_lookup, lookup_insert_eq. reflexivity.
  - done.
  - cbn [out]. unfold calls. by rewrite received_by_replay.
  - cbn [out]. unfold calls. by rewrite received_by_replay.
  - cbn [out]. unfold calls. by rewrite received_by_replay.
  - done.
  - done.
  - done.
  - intros q Hne. rewrite lookup_alter, decide_False by done.
    rewrite dispatch_conn_lookup, lookup_insert_ne by done.
    unfold calls. rewrite received_by_other by done.
    destruct (sessions st !! q) as [cq|]; [|done]. cbn. by rewrite conn_eta.
Qed.

Lemma accepted_session_is_replayed_history_witness :
  let es := [Accepted 1 (buffer_of []); HeaderRead 1 (str "   2");
             BodyRead 1 (str "hi")] in
  ∃ st st' c,
    run es Server_start = Some st
    ∧ step (Accepted 2 (buffer_of [])) st = Some st'
    ∧ sessions st' !! 2 = Some c
    ∧ Session.outgoingMessages (out c) = Room.MessageQueue (room st)
    ∧ Session.transmitted (out c) = [].
Proof.
  cbv zeta. do 2 eexists.
  destruct (accepted_session_is_replayed_history
              [Accepted 1 (buffer_of []); HeaderRead 1 (str "   2");
               BodyRead 1 (str "hi")] _ 2 (buffer_of []) _
              ltac:(vm_compute; reflexivity) ltac:(vm_compute; reflexivity))
    as (c & H1 & _ & H3 & _ & H5 & _).
  exists c.
  split; [vm_compute; reflexivity|]. split; [vm_compute; reflexivity|].
  split; [exact H1|]. split; [exact H3|exact H5].
Defined.

(** X17. A failed write takes the session out of the room but does not
    stop its read cycle: after the handler of a failed write on the session
    at [p], [p] is no member (the other members are as before) and its
    queue will never be sent, yet its pending read and its receive object
    are untouched; and when a body read of [p] completes afterwards, the
    message is still appended to the history and handed to every member. *)
Theorem failed_writer_leaves_but_keeps_reading es st p sent st1 :
  run es Server_start = Some st → step (WriteFailed p sent) st = Some st1 →
  (p ∉ Room.participants (room st1))
  ∧ (∀ q, q ≠ p →
       (q ∈ Room.participants (room st1) ↔ q ∈ Room.participants (room st))
       ∧ sessions st1 !! q = sessions st !! q)
  ∧ (∃ c c1, sessions st !! p = Some c ∧ sessions st1 !! p = Some c1
             ∧ reading c1 = reading c
             ∧ incomingMessage c1 = incomingMessage c
             ∧ Session.left_room (out c1) = true
             ∧ Session.in_flight (out c1) = []
             ∧ Session.outgoingMessages (out c1) = Session.outgoingMessages (out c)
             ∧ Session.outgoingMessages (out c) ≠ [])
  ∧ (∀ bytes st2, step (BodyRead p bytes) st1 = Some st2 →
       ∃ msg, getBody msg = bytes
            ∧ last (Room.MessageQueue (room st2)) = Some msg
            ∧ ∀ q cq, q ∈ Room.participants (room st1) →
                sessions st1 !! q = Some cq →
                ∃ cq', sessions st2 !! q = Some cq'
                     ∧ Session.outgoingMessages (out cq')
                       = Session.outgoingMessages (out cq) ++ [msg]).
Proof.
  intros Hrun Hstep.
  pose proof (server_inv_run es Server_start st server_inv_start Hrun) as Hinv.
  pose proof (server_inv_step _ _ _ Hinv Hstep) as Hinv1.
  cbn [step] in Hstep. unfold on_write in Hstep.
  destruct (sessions st !! p) as [c|] eqn:Hc; [|done].
  destruct (Session.step _ (out c)) as [o|] eqn:Ho; [|done].
  injection Hstep as <-. unfold leave, set_conn. cbn [room sessions].
  assert (p ∉ Room.participants (Room.leave p (room st))) as Hp
    by (cbn; set_solver).
  split_and!.
  - done.
  - intros q Hne. split; [cbn; set_solver|by rewrite lookup_insert_ne].
  - exists c. eexists. rewrite lookup_insert_eq.
    split_and!; [done|done|done|done| | | |];
      cbn [Session.step] in Ho;
      destruct (Session.in_flight (out c)) as [|buf ops] eqn:Hfl; try done;
      destruct (_ <? _)%nat; try done; injection Ho as <-; cbn; try done.
    + destruct (proj1 (proj2 Hinv) p c Hc) as [[D HD] _].
      pose proof (write_chain_in_flight D (out c) HD) as Hle.
      rewrite Hfl in Hle. cbn in Hle. destruct ops; [done|cbn in Hle; lia].
    + destruct (proj1 (proj2 Hinv) p c Hc) as [[D HD] _].
      destruct HD as [(_ & _ & [[_ Hfl']|(? & ? & -> & _)])|(_ & Hfl' & _)];
        [congruence|done|congruence].
  - intros bytes st2 Hbody.
    destruct (body_read_broadcast _ p bytes st2 Hinv1 Hbody)
      as (c1 & msg & _ & _ & Hb & _ & Hh & _ & _ & Hq).
    exists msg. split_and!; [done| |].
    + rewrite Hh. unfold window.
      pose proof (proj2 (proj2 Hinv1)) as Hlen. cbn [room] in Hlen.
      rewrite length_app. cbn [length].
      rewrite drop_app_le by lia. apply last_snoc.
    + intros q cq Hm Hcq.
      assert (q ≠ p) as Hne by (intros ->; done).
      rewrite (Hq q cq Hne Hcq), decide_True by done.
      eexists. split; [done|]. cbn [out]. apply deliver_outgoing.
Qed.

Lemma failed_writer_leaves_but_keeps_reading_witness :
  let es := [Accepted 1 (buffer_of []); Accepted 2 (buffer_of []);
             HeaderRead 1 (str "   2"); BodyRead 1 (str "hi");
             HeaderRead 2 (str "   2")] in
  ∃ st st1 st2 msg,
    run es Server_start = Some st
    ∧ step (WriteFailed 2 3) st = Some st1
    ∧ (2 ∉ Room.participants (room st1))
    ∧ step (BodyRead 2 (str "yo")) st1 = Some st2
    ∧ getBody msg = str "yo"
    ∧ last (Room.MessageQueue (room st2)) = Some msg.
Proof.
  cbv zeta. do 3 eexists.
  destruct (failed_writer_leaves_but_keeps_reading
              [Accepted 1 (buffer_of []); Accepted 2 (buffer_of []);
               HeaderRead 1 (str "   2"); BodyRead 1 (str "hi");
               HeaderRead 2 (str "   2")] _ 2 3 _
              ltac:(vm_compute; reflexivity) ltac:(vm_compute; reflexivity))
    as (H1 & _ & _ & H4).
  destruct (H4 (str "yo") _ ltac:(vm_compute; reflexivity))
    as (msg & Hb & Hl & _).
  exists msg.
  split; [vm_compute; reflexivity|]. split; [vm_compute; reflexivity|].
  split; [exact H1|]. split; [vm_compute; reflexivity|].
  split; [exact Hb|exact Hl].
Defined.

Lemma member_idle st q cq :
  server_inv st → q ∈ Room.participants (room st) →
  sessions st !! q = Some cq → Session.outgoingMessages (out cq) = [] →
  Session.in_flight (out cq) = [] ∧ Session.left_room (out cq) = false.
Proof.
  intros Hinv Hm Hq Hidle.
  apply (not_member_inactive st q cq Hinv Hq) in Hm.
  apply andb_prop in Hm as [_ Hl%negb_true_iff].
  destruct (proj1 (proj2 Hinv) q cq Hq) as [[D HD] _].
  destruct HD as [(_ & _ & [[_ ?]|(? & ? & ? & _)])|(? & _)]; [done|congruence..].
Qed.

(** X18. A text typed at one client comes out of the server towards
    another, byte for byte: in any state the server can reach, let the
    session at [p] be waiting for a header and [q] be another member with an
    empty write queue. When the frame a client sends for a text of at most
    512 bytes arrives at [p] (header read, then body read) and the write on
    [q] completes, the socket of [q] has sent exactly that frame after what
    it had sent before, and [q] is idle again; the client at the other end
    prints exactly the text. *)
Theorem typed_text_is_relayed es st p q cp cq raw b :
  run es Server_start = Some st →
  sessions st !! p = Some cp → reading cp = ReadingHeader →
  sessions st !! q = Some cq → q ≠ p → q ∈ Room.participants (room st) →
  Session.outgoingMessages (out cq) = [] →
  (length b ≤ 512)%nat →
  let frame := ChatClient.sendMessage raw b in
  ∃ st' cq',
    run [HeaderRead p (take 4 frame); BodyRead p (drop 4 frame); WriteDone q] st
    = Some st'
    ∧ sessions st' !! q = Some cq'
    ∧ Session.transmitted (out cq') = Session.transmitted (out cq) ++ frame
    ∧ Session.outgoingMessages (out cq') = []
    ∧ Session.in_flight (out cq') = []
    ∧ ∀ rm, ChatClient.receive_all frame rm = [b].
Proof.
  intros Hrun Hp Hr Hq Hne Hm Hidle Hb. cbv zeta.
  pose proof (server_inv_run es Server_start st server_inv_start Hrun) as Hinv.
  destruct (member_idle st q cq Hinv Hm Hq Hidle) as [Hfl Hl].
  rewrite sendMessage_frame by done.
  set (h := sprintf_4d (to_int (N.of_nat (length b)))).
  assert (length h = 4%nat) as Hh by (by apply header_length).
  rewrite (take_app_length' _ _ 4), (drop_app_length' _ _ 4) by done.
  destruct (proj1 (proj2 Hinv) p cp Hp) as [_ [Hlen _]].
  (* the header read *)
  set (m2 := {| data := h ++ drop 4 (data (incomingMessage cp));
                bodyLength_ := N.of_nat (length b) |}).
  set (cp1 := {| out := out cp; incomingMessage := m2; reading := ReadingBody |}).
  assert (step (HeaderRead p h) st = Some (set_conn p cp1 st)) as Hs1.
  { cbn [step]. unfold on_header_read. rewrite Hp, Hr.
    rewrite bool_decide_eq_true_2 by done. change (N.to_nat header) with 4%nat.
    rewrite memcpy_front, (take_ge h 4) by lia.
    unfold h. by rewrite decodeHeader_of_header. }
  (* the body read *)
  set (msg := {| data := h ++ b ++ drop (length b) (drop 4 (data (incomingMessage cp)));
                 bodyLength_ := N.of_nat (length b) |}).
  set (cp2 := {| out := out cp; incomingMessage := msg; reading := ReadingHeader |}).
  assert (step (BodyRead p b) (set_conn p cp1 st)
          = Some (write p msg (set_conn p cp2 (set_conn p cp1 st)))) as Hs2.
  { cbn [step]. unfold on_body_read, set_conn at 1. cbn [sessions].
    rewrite lookup_insert_eq. cbn [reading incomingMessage cp1 out].
    unfold getBodyLength. cbn [bodyLength_ m2 data]. rewrite Nat2N.id.
    rewrite bool_decide_eq_true_2 by done. change (N.to_nat header) with 4%nat.
    rewrite memcpy_after by done. by rewrite take_ge by lia. }
  assert (Session.write_buffer msg = h ++ b) as Hwb
    by (apply (getData_layout h b); done).
  (* the session at q after the broadcast *)
  set (cq2 := {| out := Session.deliver msg (out cq);
                 incomingMessage := incomingMessage cq;
                 reading := reading cq |}).
  assert (sessions (write p msg (set_conn p cp2 (set_conn p cp1 st))) !! q
          = Some cq2) as Hq2.
  { unfold write, set_conn. cbn [room sessions].
    change (Room.deliver p msg (room st))
      with ((Room.deliver p msg (room st)).1, (Room.deliver p msg (room st)).2).
    cbn [sessions]. rewrite dispatch_conn_lookup.
    rewrite !lookup_insert_ne, Hq by done. cbn [fmap option_fmap option_map].
    by rewrite received_by_deliver_member. }
  assert (Session.step Session.WriteDone (out cq2)
          = Some {| Session.outgoingMessages := [];
                    Session.in_flight := [];
                    Session.transmitted := Session.transmitted (out cq) ++ h ++ b;
                    Session.left_room := Session.left_room (out cq) |}) as Hw.
  { cbn [out cq2]. rewrite deliver_idle by done. cbn [Session.step Session.in_flight].
    rewrite Hfl. cbn [app]. unfold Session.on_write_ok. cbn. by rewrite Hwb. }
  do 2 eexists. split_and!.
  - cbn [run]. rewrite Hs1, Hs2. cbn [step]. unfold on_write.
    rewrite Hq2, Hw. reflexivity.
  - unfold set_conn at 1. cbn [sessions]. apply lookup_insert_eq.
  - done.
  - done.
  - done.
  - intros rm. rewrite <- (app_nil_r (h ++ b)), <- app_assoc.
    rewrite receive_all_frame; [|done|by apply header_atoi|done].
    f_equal.
Qed.

Lemma typed_text_is_relayed_witness :
  let es := [Accepted 1 (buffer_of []); Accepted 2 (buffer_of [])] in
  let frame := ChatClient.sendMessage (Message_default (buffer_of [])) (str "hi") in
  ∃ st cq st' cq',
    run es Server_start = Some st
    ∧ sessions st !! 2 = Some cq
    ∧ run [HeaderRead 1 (take 4 frame); BodyRead 1 (drop 4 frame); WriteDone 2] st
      = Some st'
    ∧ sessions st' !! 2 = Some cq'
    ∧ Session.transmitted (out cq') = Session.transmitted (out cq) ++ frame
    ∧ ∀ rm, ChatClient.receive_all frame rm = [str "hi"].
Proof.
  cbv zeta. do 2 eexists.
  destruct (typed_text_is_relayed
              [Accepted 1 (buffer_of []); Accepted 2 (buffer_of [])] _ 1 2 _ _
              (Message_default (buffer_of [])) (str "hi")
              ltac:(vm_compute; reflexivity) ltac:(vm_compute; reflexivity)
              eq_refl ltac:(vm_compute; reflexivity) ltac:(discriminate)
              ltac:(vm_compute; reflexivity) eq_refl
              ltac:(apply Nat.leb_le; reflexivity))
    as (st' & cq' & H1 & H2 & H3 & _ & _ & H6).
  exists st', cq'.
  split; [vm_compute; reflexivity|]. split; [vm_compute; reflexivity|].
  split; [exact H1|]. split; [exact H2|]. split; [exact H3|exact H6].
Defined.

End ServerProperties.
